(** * 1A2B game server: a shallow embedding of [server.py]

    The development follows the layout of the source file:

    - Python helpers used by the server ([str.isdigit], [int], [%d],
      [str.join], [list.remove], [list.pop]);
    - the data model: queue events, [Player], [Game], the
      [ConnectionManager] fields and the socket calls the server makes;
    - [ConnectionManager]: [serve_forever], [_cmd_reader], [send_to],
      [_heartbeat], [handle_disconnect];
    - [GameHost]: [broadcast], [reset_turn] and [run_game], written in a
      small state monad whose outcomes record the source line at which
      [run_game] returned, blocked or raised;
    - the properties of the specification, one theorem per claim;
    - further properties of the code, numbered X1, X2, ...

    Console logging ([print(format_log(...))]) has no effect on the state
    and is left out.  What [gevent] does with a wait that nothing can end
    -- keep waiting, or raise [LoopExit] -- is a parameter of the engine
    ([Hub]).  The server runs on Python 2 (it uses [unicode]):
    the Reader appends received bytes to a unicode buffer, which only
    succeeds for ASCII input, so every command text is an ASCII string. *)

From Stdlib Require Import List String Ascii ZArith Lia Bool Arith DecimalString.
Import ListNotations.

Open Scope string_scope.
Open Scope list_scope.

(* ================================================================== *)
(** * Python helpers *)
(* ================================================================== *)

Module Py.

(** The line feed, written ["\n"] in the source. *)
Definition nl : string := String (ascii_of_nat 10) EmptyString.

Definition is_digit_char (c : ascii) : bool :=
  (48 <=? nat_of_ascii c)%nat && (nat_of_ascii c <=? 57)%nat.

Fixpoint all_digits (s : string) : bool :=
  match s with
  | EmptyString => true
  | String c r => is_digit_char c && all_digits r
  end.

(** [str.isdigit()] on ASCII text: non-empty and made of [0-9] only. *)
Definition isdigit (s : string) : bool :=
  match s with
  | EmptyString => false
  | _ => all_digits s
  end.

Fixpoint int_acc (acc : Z) (s : string) : Z :=
  match s with
  | EmptyString => acc
  | String c r => int_acc (10 * acc + (Z.of_nat (nat_of_ascii c) - 48)) r
  end.

(** [int(s)] for a string that passed [isdigit]. *)
Definition int (s : string) : Z := int_acc 0 s.

(** ["%d" % z]. *)
Definition fmt_d (z : Z) : string := NilZero.string_of_int (Z.to_int z).

(** [sep.join(l)]. *)
Definition join (sep : string) (l : list string) : string :=
  String.concat sep l.

(** [list(s)] and [for d in s]: the characters of [s], each a string. *)
Fixpoint chars (s : string) : list string :=
  match s with
  | EmptyString => []
  | String c r => String c EmptyString :: chars r
  end.

(** [l.remove(x)]: drops the first occurrence; [None] stands for the
    [ValueError] raised when [x] is not in [l]. *)
Fixpoint list_remove (x : string) (l : list string) : option (list string) :=
  match l with
  | [] => None
  | y :: r =>
      if String.eqb y x then Some r
      else match list_remove x r with
           | Some r' => Some (y :: r')
           | None => None
           end
  end.

(** [l.pop(i)] for [0 <= i]: the element and the remaining list;
    [None] stands for [IndexError]. *)
Fixpoint list_pop (i : nat) (l : list string) : option (string * list string) :=
  match l, i with
  | [], _ => None
  | x :: r, O => Some (x, r)
  | x :: r, S j =>
      match list_pop j r with
      | Some (y, r') => Some (y, x :: r')
      | None => None
      end
  end.

(** The characters [unicode.strip()] takes for white space, among the
    ASCII ones: tab to carriage return, the four separators [0x1C] to
    [0x1F], and the blank. *)
Definition is_space (c : ascii) : bool :=
  let n := nat_of_ascii c in
  (n =? 32)%nat || ((9 <=? n)%nat && (n <=? 13)%nat)
  || ((28 <=? n)%nat && (n <=? 31)%nat).

Fixpoint lstrip (s : string) : string :=
  match s with
  | EmptyString => EmptyString
  | String c r => if is_space c then lstrip r else s
  end.

Fixpoint rstrip (s : string) : string :=
  match s with
  | EmptyString => EmptyString
  | String c r =>
      match rstrip r with
      | EmptyString => if is_space c then EmptyString else String c EmptyString
      | r' => String c r'
      end
  end.

(** [s.strip()] for a [unicode] object [s] of ASCII characters. *)
Definition strip (s : string) : string := rstrip (lstrip s).

(** Whether a byte string decodes as ASCII, which is what the implicit
    conversion of [unicode + str] needs. *)
Fixpoint all_ascii (s : string) : bool :=
  match s with
  | EmptyString => true
  | String c r => (nat_of_ascii c <? 128)%nat && all_ascii r
  end.

(** The effect of
    [while "\n" in buffer: line, buffer = buffer.split("\n", 1)]:
    the complete lines of [buf] in order, and what is left of the
    buffer.  [cur] accumulates the line being read. *)
Fixpoint split_lines (buf cur : string) : list string * string :=
  match buf with
  | EmptyString => ([], cur)
  | String c r =>
      if Ascii.eqb c (ascii_of_nat 10)
      then let (ls, rest) := split_lines r EmptyString in (cur :: ls, rest)
      else split_lines r (cur ++ String c EmptyString)
  end.

End Py.

Import Py.

(* ================================================================== *)
(** * Data model *)
(* ================================================================== *)

(** The items of a command queue: [{"type": "COMMAND", "data": text}]
    and [{"type": "DISCONNECT"}], the only two shapes the Reader and the
    Heartbeat task put there. *)
Inductive Event : Type :=
| COMMAND (data : string)
| DISCONNECT.

(** [msg["type"]]. *)
Definition ev_type (msg : Event) : string :=
  match msg with
  | COMMAND _ => "COMMAND"
  | DISCONNECT => "DISCONNECT"
  end.

(** [msg["data"]]; [None] stands for the [KeyError] of a missing key. *)
Definition ev_data (msg : Event) : option string :=
  match msg with
  | COMMAND d => Some d
  | DISCONNECT => None
  end.

(** A [Player] as [serve_forever] and [run_game] use it.  [socket] is the
    handle of the accepted connection; every [Player] is created for one
    accepted socket, so the handle also serves as the object's identity
    ([is], [in], [list.remove]). *)
Record Player : Type := mkPlayer {
  name : string;
  socket : nat;
  address : string;
  cmd_queue : list Event;
  heartbeat_queue : list bool;
  number_hand : list string;
  tool_hand : list string;
  answer : list string;
  guess_histories : list string
}.

Definition same_player (p q : Player) : bool := (socket p =? socket q)%nat.

Definition set_cmd_queue (q : list Event) (p : Player) : Player :=
  mkPlayer (name p) (socket p) (address p) q (heartbeat_queue p)
           (number_hand p) (tool_hand p) (answer p) (guess_histories p).

Definition set_heartbeat_queue (q : list bool) (p : Player) : Player :=
  mkPlayer (name p) (socket p) (address p) (cmd_queue p) q
           (number_hand p) (tool_hand p) (answer p) (guess_histories p).

Definition set_number_hand (h : list string) (p : Player) : Player :=
  mkPlayer (name p) (socket p) (address p) (cmd_queue p) (heartbeat_queue p)
           h (tool_hand p) (answer p) (guess_histories p).

Definition set_tool_hand (h : list string) (p : Player) : Player :=
  mkPlayer (name p) (socket p) (address p) (cmd_queue p) (heartbeat_queue p)
           (number_hand p) h (answer p) (guess_histories p).

Definition set_answer (a : list string) (p : Player) : Player :=
  mkPlayer (name p) (socket p) (address p) (cmd_queue p) (heartbeat_queue p)
           (number_hand p) (tool_hand p) a (guess_histories p).

(** [q.put(item)]. *)
Definition cmd_put (item : Event) (p : Player) : Player :=
  set_cmd_queue (cmd_queue p ++ [item]) p.

(** Modelled from the spec: the class [Game] of [package.game] is not
    part of the sources.  These are the attributes [run_game] reads or
    writes: the two constants of the game instance, the number deck and
    the discard piles for spent number and tool cards. *)
Record Game : Type := mkGame {
  MAX_ROUNDS : nat;
  NUM_GUESS_DIGITS : Z;
  number_deck : list string;
  discard_number : list string;
  discard_tool : list string
}.

Definition set_number_deck (d : list string) (g : Game) : Game :=
  mkGame (MAX_ROUNDS g) (NUM_GUESS_DIGITS g) d (discard_number g) (discard_tool g).

Definition set_discard_number (d : list string) (g : Game) : Game :=
  mkGame (MAX_ROUNDS g) (NUM_GUESS_DIGITS g) (number_deck g) d (discard_tool g).

Definition set_discard_tool (d : list string) (g : Game) : Game :=
  mkGame (MAX_ROUNDS g) (NUM_GUESS_DIGITS g) (number_deck g) (discard_number g) d.

(** The socket calls the server makes, in the order it makes them. *)
Inductive Action : Type :=
| Sendall (fd : nat) (msg : string)
| Close (fd : nat).

(** The greenlets started by [gevent.spawn]. *)
Inductive Task : Type :=
| Heartbeat_task (fd : nat)
| Cmd_reader_task (fd : nat).

(** The [ConnectionManager] object and its surroundings: the roster
    [players] (the very list [GameHost.players] aliases), the two latches,
    the log [wire] of socket calls, the sockets whose peer is gone
    ([broken]: [sendall] on them raises [socket.error]) and the spawned
    tasks. *)
Record Server : Type := mkServer {
  players : list Player;
  start_event : bool;
  end_event : bool;
  wire : list Action;
  broken : list nat;
  spawned : list Task
}.

Definition set_players (ps : list Player) (w : Server) : Server :=
  mkServer ps (start_event w) (end_event w) (wire w) (broken w) (spawned w).

Definition set_start_event (b : bool) (w : Server) : Server :=
  mkServer (players w) b (end_event w) (wire w) (broken w) (spawned w).

Definition set_end_event (b : bool) (w : Server) : Server :=
  mkServer (players w) (start_event w) b (wire w) (broken w) (spawned w).

Definition set_wire (l : list Action) (w : Server) : Server :=
  mkServer (players w) (start_event w) (end_event w) l (broken w) (spawned w).

Definition set_spawned (l : list Task) (w : Server) : Server :=
  mkServer (players w) (start_event w) (end_event w) (wire w) (broken w) l.

(** One more socket call on the log. *)
Definition log (a : Action) (w : Server) : Server :=
  set_wire (wire w ++ [a]) w.

Definition is_close (fd : nat) (a : Action) : bool :=
  match a with
  | Close fd' => (fd' =? fd)%nat
  | Sendall _ _ => false
  end.

(** [sock.sendall] raises [socket.error] when the peer is gone or the
    server has already closed the socket. *)
Definition sendall_raises (w : Server) (fd : nat) : bool :=
  existsb (Nat.eqb fd) (broken w) || existsb (is_close fd) (wire w).

(** The messages handed to [sendall], with their sockets, in order. *)
Fixpoint sent (l : list Action) : list (nat * string) :=
  match l with
  | [] => []
  | Sendall fd msg :: r => (fd, msg) :: sent r
  | Close _ :: r => sent r
  end.

(** The sockets on which [close] was called. *)
Fixpoint closed (l : list Action) : list nat :=
  match l with
  | [] => []
  | Close fd :: r => fd :: closed r
  | Sendall _ _ :: r => closed r
  end.

(* ================================================================== *)
(** * ConnectionManager *)
(* ================================================================== *)

(** [ConnectionManager.send_to] (lines 121-130).  The call to [sendall]
    is logged; a [socket.error] is caught and answered by closing the
    socket.  No exception leaves [send_to]. *)
Definition send_to (p : Player) (msg : string) (w : Server) : Server :=
  set_wire (wire w ++ Sendall (socket p) msg ::
              (if sendall_raises w (socket p) then [Close (socket p)] else []))
           w.

(** What [listener.accept()] yields: a connection, or an exception. *)
Inductive Accept : Type :=
| Accepted (client_sock : nat) (client_addr : string)
| AcceptFailed.

Inductive ServeStatus : Type :=
| ServeStopped            (* [break] at line 58 *)
| ServeCrashed            (* [sendall] at line 61 raised; nothing catches it *)
| ServeWaiting.           (* blocked in [accept]: no connection is pending *)

(** Modelled from the spec: the constructor [Player(name)] of
    [package.player] is not part of the sources; the hands, the answer and
    the history of a new session start empty.  The other fields are the
    attributes lines 66-70 set. *)
Definition new_player (player_id : nat) (client_sock : nat) (client_addr : string) : Player :=
  mkPlayer ("玩家" ++ fmt_d (Z.of_nat player_id)) client_sock client_addr
           [] [] [] [] [] [].

(** How one pass of the accept loop ends: back at [accept] ([Continue]),
    or with the exception of line 61 leaving [serve_forever] ([Crash]). *)
Inductive AcceptOutcome : Type :=
| Continue (w : Server)
| Crash (w : Server).

(** One iteration of the accept loop (lines 55-84) for a connection that
    has arrived. *)
Definition accept_one (client_sock : nat) (client_addr : string) (w : Server)
  : AcceptOutcome :=
  if (2 <=? List.length (players w))%nat then
    (* line 61: a bare [sendall], outside [send_to]; then [continue] *)
    let w1 := log (Sendall client_sock "FULL") w in
    if sendall_raises w client_sock then Crash w1 else Continue w1
  else
    let player_id := S (List.length (players w)) in
    let player_obj := new_player player_id client_sock client_addr in
    let w1 := set_players (players w ++ [player_obj]) w in
    let w2 := set_spawned (spawned w1 ++ [Heartbeat_task client_sock;
                                          Cmd_reader_task client_sock]) w1 in
    Continue (if (List.length (players w2) =? 2)%nat
              then set_start_event true w2 else w2).

(** [ConnectionManager.serve_forever] (lines 49-84) over the connection
    attempts that arrive. *)
Fixpoint serve_forever (incoming : list Accept) (w : Server) : ServeStatus * Server :=
  match incoming with
  | [] => (ServeWaiting, w)
  | AcceptFailed :: _ => (ServeStopped, w)
  | Accepted client_sock client_addr :: more =>
      match accept_one client_sock client_addr w with
      | Crash w' => (ServeCrashed, w')
      | Continue w' => serve_forever more w'
      end
  end.

(** What [sock.recv(1024)] yields. *)
Inductive Recv : Type :=
| RecvData (data : string)
| RecvEOF                 (* the empty string: the peer closed *)
| RecvError.              (* an exception *)

(** Lines 116-119: dispatch of one complete line. *)
Definition reader_put (p : Player) (line : string) : Player :=
  let text := strip line in
  if String.eqb text "HEARTBEAT_ACK"
  then set_heartbeat_queue (heartbeat_queue p ++ [true]) p
  else cmd_put (COMMAND text) p.

(** [ConnectionManager._cmd_reader] (lines 86-119) over the results of
    the successive [recv] calls; each comes with the value of
    [end_event.is_set()] at the loop test before it.  The result is the
    session with its queues filled, and whether the task has ended.

    A read that yields no byte is the closed connection of line 104,
    whichever way it is written.  [buffer] is a [unicode] object (the
    module imports [unicode_literals]) and [data] a byte string, so
    [buffer += data] at line 110 decodes [data] as ASCII: a byte above
    [0x7F] raises [UnicodeDecodeError], which nothing catches, and the
    task ends there without a [DISCONNECT]. *)
Fixpoint _cmd_reader (recvs : list (bool * Recv)) (buffer : string) (p : Player)
  : bool * Player :=
  match recvs with
  | [] => (false, p)
  | (true, _) :: _ => (true, p)
  | (false, RecvError) :: _ => (true, cmd_put DISCONNECT p)
  | (false, RecvEOF) :: _ => (true, cmd_put DISCONNECT p)
  | (false, RecvData EmptyString) :: _ => (true, cmd_put DISCONNECT p)
  | (false, RecvData data) :: more =>
      if all_ascii data then
        let (ls, rest) := split_lines (buffer ++ data) EmptyString in
        _cmd_reader more rest (fold_left reader_put ls p)
      else (true, p)
  end.

(** One pass of the heartbeat loop as the environment decides it:
    whether another task has set [end_event] by the time of the loop
    test, and whether an acknowledgement arrives within the window when
    none is queued yet. *)
Record Tick : Type := mkTick {
  end_set_meanwhile : bool;
  ack_in_time : bool
}.

Inductive HbStatus : Type :=
| HbDone                  (* the loop was left; line 161 closed the socket *)
| HbKilled                (* the expiry of [Timeout] left the task *)
| HbAlive.                (* still looping *)

(** [ConnectionManager._heartbeat] (lines 132-163).  [send_to] lets no
    exception out, so the handler of lines 141-145 never runs.  Whether
    the handler of line 151 ([except Exception]) catches the expiry of
    [gevent.timeout.Timeout] depends on the class that library gives the
    exception; [timeout_caught] says so. *)
Fixpoint _heartbeat (timeout_caught : bool) (ticks : list Tick)
                    (p : Player) (w : Server) : HbStatus * Player * Server :=
  match ticks with
  | [] => (HbAlive, p, w)
  | tk :: more =>
      let w0 := if end_set_meanwhile tk then set_end_event true w else w in
      if end_event w0 then (HbDone, p, log (Close (socket p)) w0)
      else
        let w1 := send_to p ("HEARTBEAT" ++ nl) w0 in
        match heartbeat_queue p with
        | _ :: rest =>
            _heartbeat timeout_caught more (set_heartbeat_queue rest p) w1
        | [] =>
            if ack_in_time tk then _heartbeat timeout_caught more p w1
            else if timeout_caught
                 then (HbDone, cmd_put DISCONNECT p, log (Close (socket p)) w1)
                 else (HbKilled, p, w1)
        end
  end.

(** [ConnectionManager.shutdown] (lines 165-173); the listener is not
    part of the model. *)
Definition shutdown (w : Server) : Server := set_end_event true w.

Fixpoint remove_player (current : Player) (l : list Player) : list Player :=
  match l with
  | [] => []
  | p :: r => if same_player p current then r else p :: remove_player current r
  end.

(** [ConnectionManager.handle_disconnect] (lines 175-182). *)
Definition handle_disconnect (current : Player) (w : Server) : Server :=
  let w1 := set_players (remove_player current (players w)) w in
  match players w1 with
  | [lone] =>
      set_end_event true (send_to lone ("WINNER " ++ name lone ++ nl) w1)
  | _ => w1
  end.

(* ================================================================== *)
(** * The Game/Player collaborators *)
(* ================================================================== *)

(** [package.game] is not part of the sources: [run_game] is written
    against its interface.  Each operation is given the objects the call
    site hands it and returns the ones it may have mutated. *)
Class GameModel : Type := {
  (** [Game(players)], line 234: the new game and the dealt players. *)
  Game_new : list Player -> Game * list Player;
  (** [game.draw_up(player)], line 399: refills the number hand. *)
  draw_up : Game -> list string -> Game * list string;
  (** [game.check_guess(answer, guess)], line 400. *)
  check_guess : list string -> list string -> Z * Z;
  (** [ToolCard.shuffle(answer)], line 351. *)
  ToolCard_shuffle : list string -> list string;
  (** [ToolCard.exclude(answer)], line 356. *)
  ToolCard_exclude : list string -> string;
  (** [ToolCard.reshuffle(number_hand, number_deck)], line 366. *)
  ToolCard_reshuffle : list string -> list string -> list string * list string
}.

(** Modelled from the spec: [ToolCard.pos(answer, pi)] of [package.game]
    is not part of the sources.  It "reveals the opponent's digit at that
    1-based position"; [None] stands for the [IndexError] of a position
    outside the answer. *)
Definition ToolCard_pos (ans : list string) (pi : Z) : option string :=
  if (1 <=? pi)%Z then nth_error ans (Z.to_nat (pi - 1)) else None.

(* ================================================================== *)
(** * GameHost *)
(* ================================================================== *)

(** What [run_game] works on: the connection manager and its local
    variable [game]. *)
Record Table : Type := mkTable {
  cm : Server;
  game : Game
}.

Definition on_cm (f : Server -> Server) (t : Table) : Table :=
  mkTable (f (cm t)) (game t).

Definition on_game (f : Game -> Game) (t : Table) : Table :=
  mkTable (cm t) (f (game t)).

Inductive Exn : Type :=
  KeyError | ValueError | IndexError | AttributeError | LoopExit.

(** How a call of [run_game] ends, with the source line where it does:
    a [return] (418 for falling off the end), a wait that nothing ends,
    or an exception nothing catches. *)
Inductive Exit : Type :=
| Returned (line : nat)
| Blocked (line : nat)
| Raised (e : Exn) (line : nat).

Inductive Res (A : Type) : Type :=
| Next (a : A) (t : Table)
| Stop (x : Exit) (t : Table).

Arguments Next {A} a t.
Arguments Stop {A} x t.

Definition M (A : Type) : Type := Table -> Res A.

Definition ret {A : Type} (a : A) : M A := fun t => Next a t.

Definition bind {A B : Type} (m : M A) (k : A -> M B) : M B :=
  fun t => match m t with
           | Next a t' => k a t'
           | Stop x t' => Stop x t'
           end.

Notation "x <- m ;; k" := (bind m (fun x => k))
  (at level 61, m at next level, right associativity).
Notation "m ;; k" := (bind m (fun _ => k))
  (at level 61, right associativity).

Definition stop {A : Type} (x : Exit) : M A := fun t => Stop x t.

Definition modify (f : Table -> Table) : M unit := fun t => Next tt (f t).

Definition the_game : M Game := fun t => Next (game t) t.

(** [self.players]. *)
Definition roster : M (list Player) := fun t => Next (players (cm t)) t.

(** [self.players[idx]], read at [line]. *)
Definition player_at (idx line : nat) : M Player :=
  fun t => match nth_error (players (cm t)) idx with
           | Some p => Next p t
           | None => Stop (Raised IndexError line) t
           end.

Fixpoint update_nth (idx : nat) (f : Player -> Player) (l : list Player) : list Player :=
  match l, idx with
  | [], _ => []
  | p :: r, O => f p :: r
  | p :: r, S j => p :: update_nth j f r
  end.

(** A mutation of the object [self.players[idx]]. *)
Definition update_player (idx : nat) (f : Player -> Player) : M unit :=
  modify (on_cm (fun w => set_players (update_nth idx f (players w)) w)).

Definition send (p : Player) (msg : string) : M unit :=
  modify (on_cm (send_to p msg)).

(** [msg["data"]], read at [line]. *)
Definition msg_data (msg : Event) (line : nat) : M string :=
  match ev_data msg with
  | Some d => ret d
  | None => stop (Raised KeyError line)
  end.

(** [gevent] is not part of the sources.  [monkey.patch_all()] makes
    the accept loop, the Readers, the Heartbeats and [run_game] greenlets
    of one hub.  A call that has to wait -- [get()] on an empty queue,
    [wait()] on an unset latch -- waits as long as the hub has something
    else to run; when nothing is left to run, the hub gives up and the
    call raises [LoopExit], a subclass of [Exception].  Nothing that
    [run_game] holds decides which of the two happens, so the engine
    takes it as a parameter.  The first wait on an empty queue ends the
    call of [run_game] either way, so one value per call is enough. *)
Class Hub : Type := { nothing_left_to_run : bool }.

(** Some greenlet can still run: a wait just waits. *)
Definition busy : Hub := {| nothing_left_to_run := false |}.

(** No other greenlet is left: a wait raises [LoopExit]. *)
Definition idle : Hub := {| nothing_left_to_run := true |}.

(** [q.get()] of [gevent.queue.Queue], called without [block] or
    [timeout]: hands out the oldest item; on an empty queue it waits, or
    raises [LoopExit] when the hub has nothing left to run.  The three
    continuations are the code after the call, the wait, and the
    [except Exception] handler around the call. *)
Definition Queue_get {HB : Hub} {A : Type} (q : list Event)
    (item : Event -> list Event -> A) (wait : A) (handler : A) : A :=
  match q with
  | [] => if nothing_left_to_run then handler else wait
  | msg :: rest => item msg rest
  end.

(** [try: msg = current.cmd_queue.get() except Exception: handler] at
    [line], for [current = self.players[idx]]. *)
Definition cmd_queue_get {HB : Hub} {A : Type} (idx line : nat)
    (item : Event -> M A) (handler : M A) : M A :=
  current <- player_at idx line ;;
  Queue_get (cmd_queue current)
    (fun msg rest => update_player idx (set_cmd_queue rest) ;; item msg)
    (stop (Blocked line))
    handler.

Fixpoint send_each (ps : list Player) (msg : string) : M unit :=
  match ps with
  | [] => ret tt
  | p :: r => send p msg ;; send_each r msg
  end.

(** [GameHost.broadcast(msg)] (lines 193-205) with [skip_players=None].
    [send_to] lets no exception out, so [dead] stays empty and nobody
    is removed. *)
Definition broadcast (msg : string) : M unit :=
  ps <- roster ;; send_each ps msg.

(** [GameHost.reset_turn] (lines 207-215) on the shared roster. *)
Definition reset_turn_server (w : Server) : Server :=
  let w1 := fold_left (fun w' p => log (Close (socket p)) w') (players w) w in
  set_start_event false (set_players [] w1).

Definition reset_turn : M unit := modify (on_cm reset_turn_server).

(** [self.handle_disconnect(current)] inside [GameHost] (lines 284, 288,
    340, 391): the method is defined on [ConnectionManager] only, so the
    attribute lookup on the [GameHost] instance raises. *)
Definition self_handle_disconnect {A : Type} (line : nat) : M A :=
  stop (Raised AttributeError line).

(** The inline abort of lines 311-316, 319-324, 332-337 and 383-388;
    [line] is the one of its [return]. *)
Definition abort_for_opponent {A : Type} (current opponent : Player) (line : nat) : M A :=
  send opponent ("WINNER " ++ name opponent ++ nl) ;;
  modify (on_cm (fun w => set_players (remove_player current (players w)) w)) ;;
  modify (on_cm (set_end_event true)) ;;
  stop (Returned line).

Definition hand_msg (p : Player) : string :=
  "HAND " ++ join "," (number_hand p) ++ ";" ++ join "," (tool_hand p) ++ nl.

Fixpoint send_hands (ps : list Player) : M unit :=
  match ps with
  | [] => ret tt
  | p :: r => send p (hand_msg p) ;; send_hands r
  end.

(** Lines 236-241: [for p in self.players[1:]]. *)
Definition deal_hands : M unit :=
  ps <- roster ;; send_hands (tl ps).

(** Lines 271-274. *)
Fixpoint send_status (ps : list Player) (current : Player) : M unit :=
  match ps with
  | [] => ret tt
  | p :: r =>
      (if same_player p current then ret tt
       else send p ("STATUS " ++ name current ++ nl)) ;;
      send_status r current
  end.

Definition valid_pos (g : Game) (pos_str : string) : bool :=
  isdigit pos_str && (1 <=? int pos_str)%Z && (int pos_str <=? NUM_GUESS_DIGITS g)%Z.

(** The [while] loop of lines 327-343.  [q] is [current.cmd_queue] as it
    stands at the loop test; the loop takes one item per pass. *)
Fixpoint pos_reprompt {HB : Hub} (q : list Event) (idx : nat)
                      (current opponent : Player)
                      (pos_str : string) {struct q} : M Z :=
  g <- the_game ;;
  if valid_pos g pos_str then ret (int pos_str)
  else
    send current ("POS" ++ nl) ;;
    Queue_get q
      (fun pos_msg rest =>
         update_player idx (set_cmd_queue rest) ;;
         if String.eqb (ev_type pos_msg) "DISCONNECTED"
         then self_handle_disconnect 340
         else pos_str' <- msg_data pos_msg 343 ;;
              pos_reprompt rest idx current opponent pos_str')
      (stop (Blocked 330))
      (abort_for_opponent current opponent 337).

(** The [POS] branch, lines 304-348.  [current] and [opponent] are the
    objects bound at lines 261-262; what the turn has mutated since is
    read from the roster. *)
Definition pos_tool {HB : Hub} (idx oidx : nat) (current opponent : Player) : M unit :=
  send opponent ("POS" ++ nl) ;;
  cmd_queue_get idx 309
    (fun pos_msg =>
       if String.eqb (ev_type pos_msg) "DISCONNECTED"
       then abort_for_opponent current opponent 324
       else
         pos_str <- msg_data pos_msg 326 ;;
         cur <- player_at idx 330 ;;
         pi <- pos_reprompt (cmd_queue cur) idx current opponent pos_str ;;
         opp <- player_at oidx 346 ;;
         match ToolCard_pos (answer opp) pi with
         | None => stop (Raised IndexError 346)
         | Some digit =>
             send current ("POS_RESULT " ++ fmt_d pi ++ " " ++ digit ++ nl)
         end)
    (abort_for_opponent current opponent 316).

Section Engine.

Context {GM : GameModel} {HB : Hub}.

(** Lines 304-368: the effect of the card just played; the result is
    [extra_guess]. *)
Definition tool_effect (idx oidx : nat) (current opponent : Player)
                       (tool : string) : M bool :=
  if String.eqb tool "POS" then
    pos_tool idx oidx current opponent ;; ret false
  else if String.eqb tool "SHUFFLE" then
    update_player idx (fun p => set_answer (ToolCard_shuffle (answer p)) p) ;;
    cur <- player_at idx 353 ;;
    send current ("SHUFFLE_RESULT " ++ join EmptyString (answer cur) ++ nl) ;;
    ret false
  else if String.eqb tool "EXCLUDE" then
    opp <- player_at oidx 356 ;;
    send current ("EXCLUDE_RESULT " ++ ToolCard_exclude (answer opp) ++ nl) ;;
    ret false
  else if String.eqb tool "DOUBLE" then
    send current ("DOUBLE_ACTIVE" ++ nl) ;;
    ret true
  else if String.eqb tool "RESHUFFLE" then
    cur <- player_at idx 366 ;;
    g <- the_game ;;
    let (hand', deck') := ToolCard_reshuffle (number_hand cur) (number_deck g) in
    update_player idx (set_number_hand hand') ;;
    modify (on_game (set_number_deck deck')) ;;
    send current ("RESHUFFLE_DONE" ++ nl) ;;
    ret false
  else ret false.

(** Lines 291-368: what the engine does with the item read at the
    [TOOL] prompt; the result is [extra_guess]. *)
Definition tool_action (idx oidx : nat) (current opponent : Player)
                       (msg : Event) : M bool :=
  if String.eqb (ev_type msg) "COMMAND" then
    data <- msg_data msg 292 ;;
    if isdigit data then
      let ci := (int data - 1)%Z in
      cur <- player_at idx 294 ;;
      if (0 <=? ci)%Z && (ci <? Z.of_nat (List.length (tool_hand cur)))%Z then
        match list_pop (Z.to_nat ci) (tool_hand cur) with
        | None => stop (Raised IndexError 295)
        | Some (tool, rest) =>
            update_player idx (set_tool_hand rest) ;;
            modify (on_game (fun g => set_discard_tool (discard_tool g ++ [tool]) g)) ;;
            send current ("USED_TOOL " ++ tool ++ nl) ;;
            send opponent ("OPP_TOOL " ++ name current ++ " " ++ tool ++ nl) ;;
            tool_effect idx oidx current opponent tool
        end
      else ret false
    else ret false
  else ret false.

(** Lines 396-398: [for d in guess]. *)
Fixpoint discard_guess (idx : nat) (ds : list string) : M unit :=
  match ds with
  | [] => ret tt
  | d :: more =>
      cur <- player_at idx 397 ;;
      match list_remove d (number_hand cur) with
      | None => stop (Raised ValueError 397)
      | Some hand' =>
          update_player idx (set_number_hand hand') ;;
          modify (on_game (fun g => set_discard_number (discard_number g ++ [d]) g)) ;;
          discard_guess idx more
      end
  end.

(** Line 399. *)
Definition do_draw_up (idx : nat) : M unit :=
  cur <- player_at idx 399 ;;
  g <- the_game ;;
  let (g', hand') := draw_up g (number_hand cur) in
  modify (on_game (fun _ => g')) ;;
  update_player idx (set_number_hand hand').

(** One pass of the guess loop, lines 373-411. *)
Definition guess_once (idx oidx : nat) (current opponent : Player) : M unit :=
  cur <- player_at idx 373 ;;
  send current (hand_msg cur) ;;
  send current ("GUESS " ++ join "," (number_hand cur) ++ nl) ;;
  cmd_queue_get idx 381
    (fun guess_msg =>
       if String.eqb (ev_type guess_msg) "DISCONNECTED"
       then self_handle_disconnect 391
       else
         guess <- msg_data guess_msg 394 ;;
         discard_guess idx (chars guess) ;;
         do_draw_up idx ;;
         opp <- player_at oidx 400 ;;
         let (a, b) := check_guess (answer opp) (chars guess) in
         send current ("RESULT " ++ fmt_d a ++ " " ++ fmt_d b ++ nl) ;;
         send opponent ("OPP_GUESS " ++ name current ++ " " ++ guess ++ " "
                        ++ fmt_d a ++ " " ++ fmt_d b ++ nl) ;;
         g <- the_game ;;
         if (a =? NUM_GUESS_DIGITS g)%Z then
           broadcast ("WINNER " ++ name current ++ nl) ;;
           reset_turn ;;
           stop (Returned 411)
         else ret tt)
    (abort_for_opponent current opponent 388).

(** Lines 371-372: [for _ in range(guesses)]. *)
Fixpoint guess_loop (guesses idx oidx : nat) (current opponent : Player) : M unit :=
  match guesses with
  | O => ret tt
  | S n =>
      guess_once idx oidx current opponent ;;
      guess_loop n idx oidx current opponent
  end.

(** The body of [for idx in [0, 1]] after the bound check,
    lines 261-411.  It runs with [idx < len(self.players)], so the
    modulus of line 262 is not zero. *)
Definition turn (idx : nat) : M unit :=
  ps <- roster ;;
  let oidx := (idx + 1) mod (List.length ps) in
  current <- player_at idx 261 ;;
  opponent <- player_at oidx 262 ;;
  send current (hand_msg current) ;;
  send_status ps current ;;
  send current ("TOOL" ++ nl) ;;
  cmd_queue_get idx 281
    (fun msg =>
       if String.eqb (ev_type msg) "DISCONNECTED"
       then self_handle_disconnect 288
       else
         extra_guess <- tool_action idx oidx current opponent msg ;;
         guess_loop (if extra_guess then 2 else 1) idx oidx current opponent)
    (self_handle_disconnect 284).

(** Lines 256-259: [for idx in [0, 1]] with its [break]. *)
Fixpoint for_turns (idxs : list nat) : M unit :=
  match idxs with
  | [] => ret tt
  | idx :: more =>
      ps <- roster ;;
      if (List.length ps <=? idx)%nat then ret tt
      else turn idx ;; for_turns more
  end.

(** Lines 246-413: [while current_round <= MAX_ROUNDS], by the number
    of rounds still to play. *)
Fixpoint round_loop (rounds_left : nat) : M unit :=
  match rounds_left with
  | O => ret tt
  | S n =>
      ps <- roster ;;
      if (List.length ps =? 1)%nat then
        lone <- player_at 0 249 ;;
        send lone ("WINNER " ++ name lone ++ nl) ;;
        modify (on_cm (set_end_event true)) ;;
        stop (Returned 253)
      else
        for_turns [0; 1]%nat ;;
        round_loop n
  end.

(** Lines 236-418, once the game object exists. *)
Definition play : M unit :=
  deal_hands ;;
  g <- the_game ;;
  round_loop (MAX_ROUNDS g) ;;
  ps <- roster ;;
  send_each ps ("DRAW" ++ nl) ;;
  reset_turn.

(** [GameHost.run_game] (lines 227-418).  Line 230 waits on the start
    latch, outside any [try]. *)
Definition run_game (w : Server) : Exit * Server :=
  if start_event w then
    let (g, ps) := Game_new (players w) in
    match play (mkTable (set_players ps w) g) with
    | Next _ t => (Returned 418, cm t)
    | Stop x t => (x, cm t)
    end
  else (if nothing_left_to_run then Raised LoopExit 230 else Blocked 230, w).

End Engine.

(* ================================================================== *)
(** * Vocabulary of the properties *)
(* ================================================================== *)

(** The hand left by lines 396-398 when every guessed digit is found. *)
Fixpoint remove_all (ds hand : list string) : option (list string) :=
  match ds with
  | [] => Some hand
  | d :: more =>
      match list_remove d hand with
      | Some hand' => remove_all more hand'
      | None => None
      end
  end.

(** What the acting player and the others are sent before the item of
    the [TOOL] prompt is read: lines 264-278. *)
Definition tool_prompt (current : Player) (ps : list Player) : list (nat * string) :=
  (socket current, hand_msg current)
    :: map (fun p => (socket p, ("STATUS " ++ name current ++ nl)%string))
           (filter (fun p => negb (same_player p current)) ps)
    ++ [(socket current, ("TOOL" ++ nl)%string)].

(** [exits P m]: whenever [m] ends the call of [run_game], it does so
    with an exit and a table that satisfy [P]. *)
Definition exits {A : Type} (P : Exit -> Table -> Prop) (m : M A) : Prop :=
  forall t x t', m t = Stop x t' -> P x t'.

(** [lands Q m]: whenever [m] runs to its end, the table satisfies [Q]. *)
Definition lands {A : Type} (Q : Table -> Prop) (m : M A) : Prop :=
  forall t a t', m t = Next a t' -> Q t'.

(** The ways the round loop can end a call of [run_game]: the
    lone-player return, the winning return right after [reset_turn], a
    wait on a command queue while the hub has something else to run,
    and, when it has not, the handlers around the queue reads -- the
    returns of lines 316, 337 and 388 and the [AttributeError] that
    [self.handle_disconnect] raises at line 284; or an exception of the
    engine's own code. *)
Definition engine_exit {HB : Hub} (x : Exit) (t : Table) : Prop :=
  match x with
  | Returned line =>
      line = 253%nat \/
      (line = 411%nat /\ exists t0, t = on_cm reset_turn_server t0) \/
      (nothing_left_to_run = true /\ In line [316; 337; 388]%nat)
  | Blocked line =>
      nothing_left_to_run = false /\ In line [281; 309; 330; 381]%nat
  | Raised e line =>
      (e = AttributeError /\ line = 284%nat /\ nothing_left_to_run = true) \/
      (e <> AttributeError /\ e <> LoopExit /\ line <> 284%nat)
  end.

(* ================================================================== *)
(** * The rest of the two classes *)
(* ================================================================== *)

(** [ConnectionManager.__init__] (lines 35-47): an empty roster and both
    latches unset; no socket call has been made on a client socket, no
    task runs.  [gone] lists the client sockets whose peer is not there
    to be written to. *)
Definition ConnectionManager_init (gone : list nat) : Server :=
  mkServer [] false false [] gone [].

(** The connections [listener.accept()] hands out, one after the other. *)
Definition arrivals (conns : list (nat * string)) : list Accept :=
  map (fun c => Accepted (fst c) (snd c)) conns.

(** The two tasks lines 78-79 start for a session, in that order. *)
Definition session_tasks (fd : nat) : list Task :=
  [Heartbeat_task fd; Cmd_reader_task fd].

(** Whether a string holds a line feed: ["\n" in s]. *)
Fixpoint has_nl (s : string) : bool :=
  match s with
  | EmptyString => false
  | String c r => Ascii.eqb c (ascii_of_nat 10) || has_nl r
  end.

(** The lines put back on the wire, each with its line feed. *)
Fixpoint unlines (ls : list string) : string :=
  match ls with
  | [] => EmptyString
  | l :: r => (l ++ nl ++ unlines r)%string
  end.

(** A read the Reader can take in: at least one byte, all of them
    ASCII. *)
Definition readable (data : string) : bool :=
  negb (String.eqb data EmptyString) && all_ascii data.

(** The bytes a Reader takes in before its loop ends: the data of the
    reads that come before the first read that fails, comes back empty or
    does not decode, and before the end latch is seen set. *)
Fixpoint stream_of (recvs : list (bool * Recv)) : string :=
  match recvs with
  | (false, RecvData data) :: more =>
      if readable data then (data ++ stream_of more)%string else EmptyString
  | _ => EmptyString
  end.

(** How the Reader's loop ends on these reads: whether the task is over,
    and whether it is over because a read failed or came back empty
    (rather than because the end latch was seen set or the data did not
    decode). *)
Fixpoint reader_outcome (recvs : list (bool * Recv)) : bool * bool :=
  match recvs with
  | [] => (false, false)
  | (true, _) :: _ => (true, false)
  | (false, RecvData data) :: more =>
      if readable data then reader_outcome more
      else (true, String.eqb data EmptyString)
  | (false, _) :: _ => (true, true)
  end.

(** The texts the Reader makes of complete lines. *)
Definition texts_of (ls : list string) : list string := map strip ls.

Definition is_ack (text : string) : bool := String.eqb text "HEARTBEAT_ACK".

(** [player in skip_players] for the optional argument of [broadcast]. *)
Definition skipped (skip_players : option (list Player)) (p : Player) : bool :=
  match skip_players with
  | None => false
  | Some l => existsb (same_player p) l
  end.

Fixpoint send_unless (skip_players : option (list Player)) (ps : list Player)
                     (msg : string) : M unit :=
  match ps with
  | [] => ret tt
  | p :: r =>
      (if skipped skip_players p then ret tt else send p msg) ;;
      send_unless skip_players r msg
  end.

(** [GameHost.broadcast(msg, skip_players)] (lines 193-205) with its
    optional argument.  [send_to] lets no exception out, so the handler
    of lines 200-202 never runs, [dead] stays empty and the loop of lines
    204-205 removes nobody. *)
Definition broadcast_skip (msg : string) (skip_players : option (list Player)) : M unit :=
  ps <- roster ;; send_unless skip_players ps msg.

(** [GameHost.save_player_record] (lines 217-225). *)
Definition save_player_record (p : Player) (action : string) : Player :=
  mkPlayer (name p) (socket p) (address p) (cmd_queue p) (heartbeat_queue p)
           (number_hand p) (tool_hand p) (answer p) (guess_histories p ++ [action]).

(** What identifies a session and is none of the engine's business
    during a turn: name, socket, address, the heartbeat queue and the
    recorded history. *)
Definition ident (p : Player) : string * nat * string * list bool * list string :=
  (name p, socket p, address p, heartbeat_queue p, guess_histories p).

(** [keeps I Q m]: started in a table that satisfies [I], the computation
    [m] either runs to its end in a table that satisfies [I], or ends the
    call of [run_game] with an exit and a table that satisfy [Q]. *)
Definition keeps {A : Type} (I : Table -> Prop) (Q : Exit -> Table -> Prop)
                 (m : M A) : Prop :=
  forall t, I t -> match m t with
                   | Next _ t' => I t'
                   | Stop x t' => Q x t'
                   end.

(* ================================================================== *)
(** * A concrete collaborator *)
(* ================================================================== *)

Module Sample.

Fixpoint exact_matches (ans guess : list string) : Z :=
  match ans, guess with
  | a :: ar, g :: gr =>
      ((if String.eqb a g then 1 else 0) + exact_matches ar gr)%Z
  | _, _ => 0%Z
  end.

Fixpoint value_matches (ans guess : list string) : Z :=
  match guess with
  | [] => 0%Z
  | g :: gr =>
      ((if existsb (String.eqb g) ans then 1 else 0) + value_matches ans gr)%Z
  end.

(** Modelled from the spec: [check_guess] yields the "count of guessed
    digits correct in position / correct in value but wrong position". *)
Definition mastermind (ans guess : list string) : Z * Z :=
  let a := exact_matches ans guess in
  (a, (value_matches ans guess - a)%Z).

Fixpoint draw (n : nat) (deck hand : list string) : list string * list string :=
  match n, deck with
  | S m, c :: deck' => draw m deck' (hand ++ [c])
  | _, _ => (deck, hand)
  end.

(** Modelled from the spec: [draw_up] "replenishes a hand to target
    size"; the size is [hand_size], the cards come off the top of the
    number deck. *)
Definition refill (hand_size : nat) (g : Game) (hand : list string)
  : Game * list string :=
  let (deck', hand') := draw (hand_size - List.length hand) (number_deck g) hand in
  (set_number_deck deck' g, hand').

(** Modelled from the spec: a game over players that come with their
    hands and answers, with the given constants and number deck; the
    random tool effects are replaced by fixed ones ([shuffle] reverses,
    [exclude] reports nothing, [reshuffle] swaps hand and deck). *)
Definition model (rounds : nat) (digits : Z) (hand_size : nat) (deck : list string)
  : GameModel :=
  {| Game_new := fun ps => (mkGame rounds digits deck [] [], ps);
     draw_up := refill hand_size;
     check_guess := mastermind;
     ToolCard_shuffle := @rev string;
     ToolCard_exclude := fun _ => EmptyString;
     ToolCard_reshuffle := fun hand deck' => (deck', hand) |}.

Definition alice : Player :=
  mkPlayer "A" 1 "10.0.0.1" [] [] ["1"; "2"; "3"; "4"; "5"] ["POS"; "DOUBLE"]
           ["7"; "8"; "9"; "0"] [].

Definition bob : Player :=
  mkPlayer "B" 2 "10.0.0.2" [] [] ["6"; "7"; "8"; "9"; "0"] ["SHUFFLE"; "EXCLUDE"]
           ["1"; "2"; "3"; "4"] [].

(** Two players connected, the start latch set, nothing sent yet. *)
Definition lobby (a b : Player) : Server :=
  mkServer [a; b] true false [] []
           [Heartbeat_task (socket a); Cmd_reader_task (socket a);
            Heartbeat_task (socket b); Cmd_reader_task (socket b)].

(** Three rounds, answers of four digits, hands of five cards. *)
Definition rules : GameModel :=
  model 3 4 5 ["0"; "1"; "2"; "3"; "4"; "5"; "6"; "7"; "8"; "9"].

Definition table (a b : Player) : Table :=
  mkTable (lobby a b) (mkGame 3 4 ["0"; "1"; "2"; "3"; "4"; "5"; "6"; "7"; "8"; "9"] [] []).

(** Alice's connection is closed by the peer: her Reader sees the empty
    read and ends. *)
Definition dropped_alice : Player :=
  snd (_cmd_reader [(false, RecvEOF)] EmptyString alice).

(** Alice sends [skip] and then her connection is closed: her Reader
    queues the command, sees the empty read and ends. *)
Definition late_dropped_alice : Player :=
  snd (_cmd_reader [(false, RecvData ("skip" ++ nl)); (false, RecvEOF)]
                   EmptyString alice).

(** Alice skips the tool and sends nothing more. *)
Definition silent_alice : Player := set_cmd_queue [COMMAND "skip"] alice.

(** Alice skips the tool, then guesses with a [9] she does not hold. *)
Definition careless_alice : Player :=
  set_cmd_queue [COMMAND "skip"; COMMAND "1239"] alice.

(** Alice answers the [TOOL] prompt with [9], then guesses Bob's answer. *)
Definition lucky_alice : Player :=
  set_cmd_queue [COMMAND "9"; COMMAND "1234"] alice.

(** Alice at the [GUESS] prompt, about to send Bob's answer. *)
Definition guessing_alice : Player :=
  set_cmd_queue [COMMAND "1234"] alice.

(** Alice has played [POS] and answers the prompt with [x], [7], [03]. *)
Definition probing_alice : Player :=
  set_cmd_queue [COMMAND "x"; COMMAND "7"; COMMAND "03"; COMMAND "1234"] alice.

(** The lobby with a third connection knocking on socket [3]. *)
Definition third : Accept := Accepted 3 "10.0.0.3".

(** A session whose peer is gone ([sendall] on socket [1] raises) while
    one acknowledgement is still queued. *)
Definition stale_alice : Player := set_heartbeat_queue [true] alice.

Definition stale_server : Server :=
  mkServer [stale_alice; bob] true false [] [1%nat] [].

End Sample.

(** Further scenes for the properties of the code. *)
Module Scenes.

(** The lobby of two while the peer of the socket [3] that knocks is
    already gone. *)
Definition deaf_lobby : Server :=
  mkServer [Sample.alice; Sample.bob] true false [] [3%nat] [].

(** Three connections in a row. *)
Definition three_knocks : list (nat * string) :=
  [(1%nat, "10.0.0.1"); (2%nat, "10.0.0.2"); (3%nat, "10.0.0.3")].

(** Two passes of the heartbeat loop, each acknowledged in time. *)
Definition two_good_ticks : list Tick := [mkTick false true; mkTick false true].

(** Bob alone on the roster. *)
Definition bob_alone : Server := mkServer [Sample.bob] true false [] [] [].

(** Alice at the [GUESS] prompt with a guess that has three digits of
    Bob's answer in place. *)
Definition near_alice : Player := set_cmd_queue [COMMAND "1235"] Sample.alice.

(** Alice answers the [TOOL] prompt with [2], her [DOUBLE] card. *)
Definition doubling_alice : Player := set_cmd_queue [COMMAND "2"] Sample.alice.

(** A game of no round at all. *)
Definition no_rounds : GameModel :=
  Sample.model 0 4 5 ["0"; "1"; "2"; "3"; "4"; "5"; "6"; "7"; "8"; "9"].

End Scenes.

(* ================================================================== *)
(** * Properties: the socket log *)
(* ================================================================== *)

Lemma sent_app (l1 l2 : list Action) : sent (l1 ++ l2) = sent l1 ++ sent l2.
Proof.
  induction l1 as [|[fd msg|fd] l1 IH]; simpl; [reflexivity | now rewrite IH | exact IH].
Qed.

Lemma closed_app (l1 l2 : list Action) : closed (l1 ++ l2) = closed l1 ++ closed l2.
Proof.
  induction l1 as [|[fd msg|fd] l1 IH]; simpl; [reflexivity | exact IH | now rewrite IH].
Qed.

Lemma sent_send_to (p : Player) (msg : string) (w : Server) :
  sent (wire (send_to p msg w)) = sent (wire w) ++ [(socket p, msg)].
Proof.
  unfold send_to; simpl. rewrite sent_app; simpl.
  now destruct (sendall_raises w (socket p)).
Qed.

Lemma closed_send_to (p : Player) (msg : string) (w : Server) :
  closed (wire (send_to p msg w))
  = closed (wire w) ++ (if sendall_raises w (socket p) then [socket p] else []).
Proof.
  unfold send_to; simpl. rewrite closed_app; simpl.
  now destruct (sendall_raises w (socket p)).
Qed.

Lemma sent_log_send (fd : nat) (msg : string) (w : Server) :
  sent (wire (log (Sendall fd msg) w)) = sent (wire w) ++ [(fd, msg)].
Proof. unfold log; simpl. now rewrite sent_app. Qed.

Lemma closed_log_send (fd : nat) (msg : string) (w : Server) :
  closed (wire (log (Sendall fd msg) w)) = closed (wire w).
Proof. unfold log; simpl. rewrite closed_app; simpl. apply app_nil_r. Qed.

(* ================================================================== *)
(** * Properties: ConnectionManager *)
(* ================================================================== *)

(** With a full roster the accept loop only ever logs [FULL] sends. *)
(** Lines 60-62. *)
Lemma accept_one_full (fd : nat) (addr : string) (w : Server) :
  (2 <= List.length (players w))%nat ->
  accept_one fd addr w
  = if sendall_raises w fd
    then Crash (log (Sendall fd "FULL") w)
    else Continue (log (Sendall fd "FULL") w).
Proof.
  intros Hfull. unfold accept_one.
  destruct (Nat.leb_spec 2 (List.length (players w))) as [_|Hlt]; [reflexivity|lia].
Qed.

Lemma serve_forever_full (incoming : list Accept) :
  forall w : Server,
    (2 <= List.length (players w))%nat ->
    let w' := snd (serve_forever incoming w) in
    players w' = players w /\ spawned w' = spawned w /\
    start_event w' = start_event w /\
    closed (wire w') = closed (wire w) /\
    exists l, sent (wire w') = sent (wire w) ++ l.
Proof.
  induction incoming as [|[fd addr|] more IH]; intros w Hfull;
    cbn [serve_forever].
  - cbn [snd]. repeat split; trivial. exists []. now rewrite app_nil_r.
  - rewrite (accept_one_full fd addr w Hfull).
    destruct (sendall_raises w fd); cbn [snd].
    + repeat split; trivial.
      * apply closed_log_send.
      * exists [(fd, "FULL")]. apply sent_log_send.
    + destruct (IH (log (Sendall fd "FULL") w) Hfull) as (Hp & Hs & Hst & Hc & l & Hl).
      repeat split; trivial.
      * now rewrite Hc, closed_log_send.
      * exists ((fd, "FULL") :: l).
        rewrite Hl, sent_log_send, <- app_assoc. reflexivity.
  - cbn [snd]. repeat split; trivial. exists []. now rewrite app_nil_r.
Qed.

(** C3, as the specification states it, fails on the lobby of two with a
    third connection arriving: [FULL] is sent and the roster is left
    alone, but no [close] is ever called on the new socket. *)
Lemma serve_forever_full_close_counterexample :
  ~ (let w := Sample.lobby Sample.alice Sample.bob in
     let w' := snd (serve_forever [Sample.third] w) in
     In (3%nat, "FULL") (sent (wire w')) /\
     In 3%nat (closed (wire w')) /\
     players w' = players w /\ spawned w' = spawned w).
Proof.
  simpl. intros (_ & Hclosed & _). exact Hclosed.
Qed.

(** C3 (amended): when a connection arrives while the roster already
    holds two players, the accept loop calls [sendall("FULL")] on the new
    socket and goes back to [accept] (or dies on the exception of that
    very call); whatever connections follow, the new socket's [FULL] stays
    on the log, the roster and the spawned tasks are what they were, and
    the loop has called [close] on no socket. *)
Theorem serve_forever_rejects_overflow :
  forall (client_sock : nat) (client_addr : string) (more : list Accept) (w : Server),
    (2 <= List.length (players w))%nat ->
    let w1 := log (Sendall client_sock "FULL") w in
    (accept_one client_sock client_addr w = Continue w1 \/
     accept_one client_sock client_addr w = Crash w1) /\
    let w' := snd (serve_forever (Accepted client_sock client_addr :: more) w) in
    In (client_sock, "FULL") (sent (wire w')) /\
    players w' = players w /\
    spawned w' = spawned w /\
    closed (wire w') = closed (wire w).
Proof.
  intros fd addr more w Hfull w1.
  pose proof (accept_one_full fd addr w Hfull) as Hstep. fold w1 in Hstep.
  split.
  - rewrite Hstep. destruct (sendall_raises w fd); auto.
  - cbn [serve_forever]. rewrite Hstep.
    destruct (sendall_raises w fd); cbn [snd].
    + subst w1. rewrite sent_log_send, closed_log_send.
      repeat split; trivial. apply in_or_app. right. now left.
    + destruct (serve_forever_full more w1 Hfull) as (Hp & Hs & _ & Hc & l & Hl).
      rewrite Hl. subst w1. rewrite sent_log_send.
      repeat split; trivial.
      * apply in_or_app. left. apply in_or_app. right. now left.
      * now rewrite Hc, closed_log_send.
Qed.

Lemma serve_forever_rejects_overflow_witness :
  let w := Sample.lobby Sample.alice Sample.bob in
  let w' := snd (serve_forever [Sample.third] w) in
  In (3%nat, "FULL") (sent (wire w')) /\ players w' = players w.
Proof.
  destruct (serve_forever_rejects_overflow 3 "10.0.0.3" []
              (Sample.lobby Sample.alice Sample.bob))
    as (_ & Hsent & Hplayers & _).
  - simpl. lia.
  - split; [exact Hsent | exact Hplayers].
Defined.

(** C8 (the code at a failing input): the peer of socket [1] is gone, so
    the [HEARTBEAT] send fails; [send_to] swallows the error and closes
    the socket, the queued acknowledgement is consumed, and the task goes
    on looping without having put any [DISCONNECT] on the command
    queue -- whichever way the library classifies a timeout. *)
Theorem heartbeat_send_failure_unreported :
  forall timeout_caught : bool,
    _heartbeat timeout_caught [mkTick false false] Sample.stale_alice Sample.stale_server
    = (HbAlive,
       Sample.alice,
       set_wire [Sendall 1 ("HEARTBEAT" ++ nl); Close 1] Sample.stale_server)
    /\ cmd_queue Sample.alice = [].
Proof.
  intros c. split; reflexivity.
Qed.

(* ================================================================== *)
(** * Properties: running the engine by hand *)
(* ================================================================== *)

(** ** Laws of the monad, as rewriting steps *)

Lemma bind_Next {A B} (m : M A) (k : A -> M B) t a t' :
  m t = Next a t' -> bind m k t = k a t'.
Proof. unfold bind. now intros ->. Qed.

Lemma bind_Stop {A B} (m : M A) (k : A -> M B) t x t' :
  m t = Stop x t' -> bind m k t = Stop x t'.
Proof. unfold bind. now intros ->. Qed.

Lemma bind_player_at {B} idx line (k : Player -> M B) t p :
  nth_error (players (cm t)) idx = Some p -> bind (player_at idx line) k t = k p t.
Proof. unfold bind, player_at. now intros ->. Qed.

(** ** The roster under [update_nth] *)

Lemma nth_error_update_eq idx f l p :
  nth_error l idx = Some p -> nth_error (update_nth idx f l) idx = Some (f p).
Proof.
  revert idx; induction l as [|x l IH]; intros [|idx]; simpl; try discriminate.
  - now intros [= ->].
  - apply IH.
Qed.

Lemma nth_error_update_neq idx j f l :
  idx <> j -> nth_error (update_nth idx f l) j = nth_error l j.
Proof.
  revert idx j; induction l as [|x l IH]; intros [|idx] [|j] H; simpl; try reflexivity.
  - congruence.
  - apply IH. congruence.
Qed.

Lemma update_nth_twice idx f g l :
  update_nth idx f (update_nth idx g l) = update_nth idx (fun p => f (g p)) l.
Proof.
  revert idx; induction l as [|x l IH]; intros [|idx]; simpl; try reflexivity.
  now rewrite IH.
Qed.

Lemma update_nth_same idx f l p :
  nth_error l idx = Some p -> f p = p -> update_nth idx f l = l.
Proof.
  revert idx; induction l as [|x l IH]; intros [|idx]; simpl; try discriminate; trivial.
  - intros [= ->] ->. reflexivity.
  - intros H1 H2. now rewrite IH.
Qed.

Lemma map_socket_update idx f l :
  (forall p, socket (f p) = socket p) ->
  map socket (update_nth idx f l) = map socket l.
Proof.
  intros Hf. revert idx; induction l as [|x l IH]; intros [|idx]; simpl; try reflexivity.
  - now rewrite Hf.
  - now rewrite IH.
Qed.

Lemma bind_bind {A B C} (m : M A) (k1 : A -> M B) (k2 : B -> M C) (t : Table) :
  bind (bind m k1) k2 t = bind m (fun a => bind (k1 a) k2) t.
Proof. unfold bind. now destruct (m t). Qed.

(** Unfolding of the monad's primitives and of the record updates. *)
Ltac mred :=
  cbn [bind ret modify send roster the_game update_player stop msg_data ev_data
       Queue_get cmd_queue_get on_cm on_game cm game players
       set_players set_cmd_queue cmd_queue self_handle_disconnect
       wire broken spawned start_event end_event set_start_event set_end_event].

Ltac mred_in H :=
  cbn [bind ret modify send roster the_game update_player stop msg_data ev_data
       Queue_get cmd_queue_get on_cm on_game cm game players
       set_players set_cmd_queue cmd_queue self_handle_disconnect
       wire broken spawned start_event end_event set_start_event set_end_event] in H.

(** No item of a command queue carries the tag the engine tests for. *)
Lemma ev_type_never_DISCONNECTED (msg : Event) :
  String.eqb (ev_type msg) "DISCONNECTED" = false.
Proof. now destruct msg. Qed.

(** A broadcast reaches every socket of the list and changes nothing
    but the socket log. *)
Lemma send_each_spec (msg : string) (ps : list Player) :
  forall t : Table,
    exists t',
      send_each ps msg t = Next tt t' /\
      players (cm t') = players (cm t) /\
      start_event (cm t') = start_event (cm t) /\
      end_event (cm t') = end_event (cm t) /\
      game t' = game t /\
      (exists l, closed (wire (cm t')) = closed (wire (cm t)) ++ l) /\
      sent (wire (cm t')) = sent (wire (cm t)) ++ map (fun p => (socket p, msg)) ps.
Proof.
  induction ps as [|p ps IH]; intros t; cbn [send_each].
  - exists t. cbn [ret map]. rewrite app_nil_r. repeat split; trivial.
    exists []. now rewrite app_nil_r.
  - mred.
    destruct (IH (mkTable (send_to p msg (cm t)) (game t)))
      as (t' & Hrun & Hp & Hs & He & Hg & (l & Hc) & Hsent).
    exists t'. split; [exact Hrun|].
    cbn [cm game] in *.
    rewrite Hp, Hs, He, Hg, Hc, Hsent, sent_send_to, closed_send_to.
    repeat split; trivial.
    + eexists. rewrite <- app_assoc. reflexivity.
    + cbn [map]. now rewrite <- app_assoc.
Qed.

(** [reset_turn] calls [close] on every socket of the roster and sends
    nothing. *)
Lemma closed_reset_turn (w : Server) :
  forall p, In p (players w) -> In (socket p) (closed (wire (reset_turn_server w))).
Proof.
  unfold reset_turn_server. cbn [wire set_start_event set_players].
  assert (H : forall ps w0,
             wire (fold_left (fun w' p => log (Close (socket p)) w') ps w0)
             = wire w0 ++ map (fun p => Close (socket p)) ps).
  { induction ps as [|q ps IH]; intros w0; cbn [fold_left map].
    - now rewrite app_nil_r.
    - rewrite IH. unfold log. cbn [wire set_wire]. now rewrite <- app_assoc. }
  intros p Hp. rewrite H, closed_app. apply in_or_app. right.
  induction (players w) as [|q ps IH]; [contradiction|].
  cbn [map closed]. destruct Hp as [->|Hp]; [now left | right; auto].
Qed.

Lemma sent_reset_turn (w : Server) :
  sent (wire (reset_turn_server w)) = sent (wire w).
Proof.
  unfold reset_turn_server. cbn [wire set_start_event set_players].
  generalize (players w). intros ps. revert w.
  induction ps as [|q ps IH]; intros w; cbn [fold_left]; trivial.
  rewrite IH. unfold log. cbn [wire set_wire]. rewrite sent_app. cbn. apply app_nil_r.
Qed.

(** The loop body, whatever the queue. *)
Lemma pos_reprompt_eq {HB : Hub} (q : list Event) (idx : nat)
                      (current opponent : Player) (pos_str : string) :
  pos_reprompt q idx current opponent pos_str
  = (g <- the_game ;;
     if valid_pos g pos_str then ret (int pos_str)
     else
       send current ("POS" ++ nl) ;;
       Queue_get q
         (fun pos_msg rest =>
            update_player idx (set_cmd_queue rest) ;;
            if String.eqb (ev_type pos_msg) "DISCONNECTED"
            then self_handle_disconnect 340
            else pos_str' <- msg_data pos_msg 343 ;;
                 pos_reprompt rest idx current opponent pos_str')
         (stop (Blocked 330))
         (abort_for_opponent current opponent 337)).
Proof. destruct q; reflexivity. Qed.

(** [l.pop(i)] within bounds. *)
Lemma list_pop_Some (l : list string) :
  forall i, (i < List.length l)%nat ->
    exists x, nth_error l i = Some x /\
              list_pop i l = Some (x, firstn i l ++ skipn (S i) l).
Proof.
  induction l as [|y l IH]; intros [|i] Hi; simpl in Hi; try lia.
  - exists y. split; reflexivity.
  - destruct (IH i) as (x & Hx & Hpop); [lia|].
    exists x. split; [exact Hx|]. cbn [list_pop]. rewrite Hpop. reflexivity.
Qed.


(* ================================================================== *)
(** * Properties: GameHost, one phase at a time *)
(* ================================================================== *)

Section PhaseFacts.

Context {GM : GameModel} {HB : Hub}.

(** Lines 396-398 when every guessed digit is in the hand. *)
Lemma discard_guess_ok (idx : nat) (ds : list string) :
  forall (t : Table) (cur : Player) (hand' : list string),
    nth_error (players (cm t)) idx = Some cur ->
    remove_all ds (number_hand cur) = Some hand' ->
    exists t',
      discard_guess idx ds t = Next tt t' /\
      players (cm t') = update_nth idx (set_number_hand hand') (players (cm t)) /\
      game t' = set_discard_number (discard_number (game t) ++ ds) (game t) /\
      wire (cm t') = wire (cm t) /\ broken (cm t') = broken (cm t) /\
      start_event (cm t') = start_event (cm t) /\ end_event (cm t') = end_event (cm t).
Proof.
  induction ds as [|d more IH]; intros t cur hand' Hcur Hrem; simpl in Hrem.
  - injection Hrem as <-. exists t. cbn [discard_guess ret]. repeat split; trivial.
    + symmetry. apply update_nth_same with (p := cur); trivial. now destruct cur.
    + rewrite app_nil_r. now destruct (game t).
  - destruct (list_remove d (number_hand cur)) as [h1|] eqn:Hd; [|discriminate].
    cbn [discard_guess]. rewrite (bind_player_at _ _ _ _ _ Hcur). rewrite Hd.
    mred.
    edestruct (IH (mkTable (set_players (update_nth idx (set_number_hand h1) (players (cm t))) (cm t))
                    (set_discard_number (discard_number (game t) ++ [d]) (game t)))
                 (set_number_hand h1 cur) hand') as (t' & Hrun & Hp & Hg & Hw & Hb & Hs & He).
    + cbn [cm players set_players]. now apply nth_error_update_eq.
    + exact Hrem.
    + exists t'. split; [exact Hrun|].
      cbn [cm players set_players game] in *.
      rewrite Hp, Hg, update_nth_twice. cbn. rewrite <- app_assoc.
      repeat split; trivial.
Qed.

(** Line 399. *)
Lemma do_draw_up_ok (idx : nat) (t : Table) (cur : Player) (g' : Game) (hand' : list string) :
  nth_error (players (cm t)) idx = Some cur ->
  draw_up (game t) (number_hand cur) = (g', hand') ->
  do_draw_up idx t
  = Next tt (mkTable (set_players (update_nth idx (set_number_hand hand') (players (cm t)))
                                  (cm t)) g').
Proof.
  intros Hcur Hdraw. unfold do_draw_up.
  rewrite (bind_player_at _ _ _ _ _ Hcur). mred. rewrite Hdraw. reflexivity.
Qed.

(** Lines 396-398 when some guessed digit is not in the hand: the
    [remove] of line 397 raises. *)
Lemma discard_guess_raises (idx : nat) (ds : list string) :
  forall (t : Table) (cur : Player),
    nth_error (players (cm t)) idx = Some cur ->
    remove_all ds (number_hand cur) = None ->
    exists t', discard_guess idx ds t = Stop (Raised ValueError 397) t'.
Proof.
  induction ds as [|d more IH]; intros t cur Hcur Hrem; simpl in Hrem;
    [discriminate|].
  cbn [discard_guess]. rewrite (bind_player_at _ _ _ _ _ Hcur).
  destruct (list_remove d (number_hand cur)) as [h1|] eqn:Hd.
  - mred. apply (IH _ (set_number_hand h1 cur)); [|exact Hrem].
    mred. now apply nth_error_update_eq.
  - eexists. reflexivity.
Qed.

(** The guess phase on a guess with a digit that is not in the hand. *)
Lemma guess_once_raises (idx oidx : nat) (current opponent cur : Player)
      (t : Table) (guess : string) (rest : list Event) :
  nth_error (players (cm t)) idx = Some cur ->
  cmd_queue cur = COMMAND guess :: rest ->
  remove_all (chars guess) (number_hand cur) = None ->
  exists t',
    guess_once idx oidx current opponent t = Stop (Raised ValueError 397) t'.
Proof.
  intros Hcur Hq Hrem. unfold guess_once.
  rewrite (bind_player_at _ _ _ _ _ Hcur). mred.
  unfold cmd_queue_get.
  erewrite bind_player_at by (mred; exact Hcur).
  rewrite Hq. mred. rewrite ev_type_never_DISCONNECTED. mred.
  match goal with |- context [bind (discard_guess _ _) _ ?t1] =>
    destruct (discard_guess_raises idx (chars guess) t1 (set_cmd_queue rest cur))
      as (t' & Hrun)
  end.
  - mred. cbn [players send_to set_wire]. now apply nth_error_update_eq.
  - exact Hrem.
  - exists t'. now apply bind_Stop.
Qed.

(** C5: whatever the round, when the item read at the [GUESS] prompt is a
    guess whose digits are all in the hand and [check_guess] reports
    [NUM_GUESS_DIGITS] exact matches, the guess loop ends the call of
    [run_game] at line 411 -- whatever code would follow is not run --
    with the roster cleared, the start latch cleared, and, for every
    player of the roster, [WINNER <acting player>] sent to and [close]
    called on that player's socket. *)
Theorem exact_match_wins :
  forall (guesses idx oidx : nat) (current opponent cur opp : Player) (t : Table)
         (guess : string) (rest : list Event) (hand1 hand2 : list string)
         (g2 : Game) (a b : Z),
    nth_error (players (cm t)) idx = Some cur ->
    nth_error (players (cm t)) oidx = Some opp ->
    idx <> oidx ->
    cmd_queue cur = COMMAND guess :: rest ->
    remove_all (chars guess) (number_hand cur) = Some hand1 ->
    draw_up (set_discard_number (discard_number (game t) ++ chars guess) (game t)) hand1
    = (g2, hand2) ->
    check_guess (answer opp) (chars guess) = (a, b) ->
    a = NUM_GUESS_DIGITS g2 ->
    exists t',
      guess_loop (S guesses) idx oidx current opponent t = Stop (Returned 411) t' /\
      (forall (B : Type) (k : unit -> M B),
          bind (guess_loop (S guesses) idx oidx current opponent) k t
          = Stop (Returned 411) t') /\
      players (cm t') = [] /\
      start_event (cm t') = false /\
      forall p, In p (players (cm t)) ->
        In (socket p, ("WINNER " ++ name current ++ nl)%string) (sent (wire (cm t'))) /\
        In (socket p) (closed (wire (cm t'))).
Proof.
  intros guesses idx oidx current opponent cur opp t guess rest hand1 hand2 g2 a b
         Hcur Hopp Hneq Hq Hrem Hdraw Hcheck Ha.
  assert (Hwin : exists t',
             guess_once idx oidx current opponent t = Stop (Returned 411) t' /\
             players (cm t') = [] /\
             start_event (cm t') = false /\
             forall p, In p (players (cm t)) ->
               In (socket p, ("WINNER " ++ name current ++ nl)%string) (sent (wire (cm t'))) /\
               In (socket p) (closed (wire (cm t')))).
  { unfold guess_once.
    rewrite (bind_player_at _ _ _ _ _ Hcur). mred.
    unfold cmd_queue_get.
    erewrite bind_player_at by (mred; exact Hcur).
    rewrite Hq. mred. rewrite ev_type_never_DISCONNECTED.
    mred.
    set (t1 := on_cm _ _).
    assert (Hcur1 : nth_error (players (cm t1)) idx = Some (set_cmd_queue rest cur)).
    { subst t1. cbn [on_cm cm players set_players send_to set_wire].
      now apply nth_error_update_eq. }
    destruct (discard_guess_ok idx (chars guess) t1 _ hand1 Hcur1 Hrem)
      as (t2 & Hrun2 & Hp2 & Hg2 & Hw2 & _ & _ & _).
    rewrite (bind_Next _ _ _ _ _ Hrun2).
    assert (Hcur2 : nth_error (players (cm t2)) idx
                    = Some (set_number_hand hand1 (set_cmd_queue rest cur))).
    { rewrite Hp2. now apply nth_error_update_eq. }
    rewrite (bind_Next _ _ _ _ _ (do_draw_up_ok idx t2 _ g2 hand2 Hcur2
               ltac:(rewrite Hg2; subst t1; exact Hdraw))).
    erewrite bind_player_at
      by (mred; rewrite nth_error_update_neq by exact Hneq; rewrite Hp2;
          rewrite nth_error_update_neq by exact Hneq; subst t1; mred;
          rewrite nth_error_update_neq by exact Hneq; exact Hopp).
    rewrite Hcheck. mred. rewrite Ha, Z.eqb_refl.
    unfold broadcast. rewrite bind_bind. mred.
    cbn [players send_to set_wire set_players].
    match goal with |- context [bind (send_each ?ps ?m) _ ?t0] =>
      destruct (send_each_spec m ps t0) as (t3 & Hrun3 & Hp3 & Hs3 & _ & _ & (l3 & Hc3) & Hsent3)
    end.
    rewrite (bind_Next _ _ _ _ _ Hrun3). unfold reset_turn. mred.
    eexists. split; [reflexivity|]. mred.
    split; [reflexivity|]. split; [reflexivity|].
    intros p Hp.
    assert (Hsock : In (socket p) (map socket (players (cm t3)))).
    { rewrite Hp3. mred. cbn [players send_to set_wire set_players].
      rewrite map_socket_update by reflexivity. rewrite Hp2.
      rewrite map_socket_update by reflexivity. subst t1. mred.
      cbn [players send_to set_wire set_players].
      rewrite map_socket_update by reflexivity. now apply in_map. }
    apply in_map_iff in Hsock. destruct Hsock as (q & Hq1 & Hq2).
    split.
    - rewrite sent_reset_turn, Hsent3. apply in_or_app. right.
      apply in_map_iff. exists q. split; [now rewrite Hq1|].
      rewrite Hp3 in Hq2. exact Hq2.
    - rewrite <- Hq1. now apply closed_reset_turn. }
  destruct Hwin as (t' & Hrun & Hrest).
  exists t'. cbn [guess_loop].
  split; [now apply bind_Stop|].
  split; [|exact Hrest].
  intros B k. apply bind_Stop. now apply bind_Stop.
Qed.

End PhaseFacts.

Section ToolFacts.

Context {GM : GameModel} {HB : Hub}.

(** Lines 271-274: [STATUS] goes to every player of the roster but the
    acting one. *)
Lemma send_status_spec (current : Player) (ps : list Player) :
  forall t : Table,
    exists t',
      send_status ps current t = Next tt t' /\
      players (cm t') = players (cm t) /\
      start_event (cm t') = start_event (cm t) /\
      end_event (cm t') = end_event (cm t) /\
      game t' = game t /\
      sent (wire (cm t'))
      = sent (wire (cm t))
        ++ map (fun p => (socket p, ("STATUS " ++ name current ++ nl)%string))
               (filter (fun p => negb (same_player p current)) ps).
Proof.
  induction ps as [|p ps IH]; intros t; cbn [send_status filter].
  - exists t. cbn [ret map]. rewrite app_nil_r. repeat split.
  - destruct (same_player p current); cbn [negb]; mred.
    + apply IH.
    + destruct (IH (mkTable (send_to p ("STATUS " ++ name current ++ nl) (cm t)) (game t)))
        as (t' & Hrun & Hp & Hs & He & Hg & Hsent).
      exists t'. split; [exact Hrun|]. cbn [cm game] in *.
      rewrite Hp, Hs, He, Hg, Hsent, sent_send_to. repeat split.
      cbn [map]. now rewrite <- app_assoc.
Qed.

(** Lines 261-289 and 370-372 with an item on the acting player's
    queue: the prompts go out, the item leaves the queue, and the turn is
    what lines 291-411 make of the item. *)
Lemma turn_reads_item (idx : nat) (current opponent : Player) (msg : Event)
      (rest : list Event) (t : Table) :
  let oidx := ((idx + 1) mod List.length (players (cm t)))%nat in
  nth_error (players (cm t)) idx = Some current ->
  nth_error (players (cm t)) oidx = Some opponent ->
  cmd_queue current = msg :: rest ->
  exists t1,
    turn idx t
    = (extra_guess <- tool_action idx oidx current opponent msg ;;
       guess_loop (if extra_guess then 2 else 1) idx oidx current opponent) t1 /\
    players (cm t1) = update_nth idx (set_cmd_queue rest) (players (cm t)) /\
    game t1 = game t /\
    start_event (cm t1) = start_event (cm t) /\
    end_event (cm t1) = end_event (cm t) /\
    sent (wire (cm t1)) = sent (wire (cm t)) ++ tool_prompt current (players (cm t)).
Proof.
  intros oidx Hcur Hopp Hq. unfold turn. mred.
  rewrite (bind_player_at _ _ _ _ _ Hcur).
  fold oidx. rewrite (bind_player_at _ _ _ _ _ Hopp). mred.
  match goal with |- context [bind (send_status ?ps ?c) _ ?t0] =>
    destruct (send_status_spec c ps t0) as (t' & Hrun & Hp & Hs & He & Hg & Hsent)
  end.
  rewrite (bind_Next _ _ _ _ _ Hrun). mred.
  cbn [cm game on_cm players send_to set_wire start_event end_event] in Hp, Hs, He, Hg, Hsent.
  unfold cmd_queue_get.
  erewrite bind_player_at
    by (mred; cbn [players send_to set_wire]; rewrite Hp; exact Hcur).
  rewrite Hq. mred. rewrite ev_type_never_DISCONNECTED.
  eexists. split; [reflexivity|]. mred.
  cbn [players send_to set_wire start_event end_event].
  rewrite Hp, Hs, He, Hg. repeat split.
  rewrite sent_send_to, Hsent, sent_send_to. unfold tool_prompt.
  rewrite <- !app_assoc. reflexivity.
Qed.

(** Lines 291-302 on a [COMMAND] item. *)
Lemma tool_action_command (idx oidx : nat) (current opponent cur : Player)
      (data : string) (t : Table) :
  nth_error (players (cm t)) idx = Some cur ->
  let ci := (int data - 1)%Z in
  tool_action idx oidx current opponent (COMMAND data) t
  = if isdigit data && (0 <=? ci)%Z && (ci <? Z.of_nat (List.length (tool_hand cur)))%Z
    then match list_pop (Z.to_nat ci) (tool_hand cur) with
         | Some (tool, rest) =>
             (update_player idx (set_tool_hand rest) ;;
              modify (on_game (fun g => set_discard_tool (discard_tool g ++ [tool]) g)) ;;
              send current ("USED_TOOL " ++ tool ++ nl) ;;
              send opponent ("OPP_TOOL " ++ name current ++ " " ++ tool ++ nl) ;;
              tool_effect idx oidx current opponent tool) t
         | None => Stop (Raised IndexError 295) t
         end
    else Next false t.
Proof.
  intros Hcur ci. unfold tool_action. cbn [ev_type String.eqb Ascii.eqb Bool.eqb]. mred.
  destruct (isdigit data); [|reflexivity].
  rewrite (bind_player_at _ _ _ _ _ Hcur). fold ci. cbn [andb].
  destruct ((0 <=? ci)%Z && (ci <? Z.of_nat (List.length (tool_hand cur)))%Z);
    [|reflexivity].
  destruct (list_pop (Z.to_nat ci) (tool_hand cur)) as [[tool rest]|]; reflexivity.
Qed.

(** A turn in which the answer to the [TOOL] prompt picks a card: the card
    leaves the tool hand for [discard_tool], both players are told, and
    the turn is the card's effect followed by the guess loop of line
    371. *)
Lemma turn_plays_card (idx : nat) (current opponent : Player) (data : string)
      (rest : list Event) (t : Table) :
  let oidx := ((idx + 1) mod List.length (players (cm t)))%nat in
  let n := Z.to_nat (int data - 1) in
  nth_error (players (cm t)) idx = Some current ->
  nth_error (players (cm t)) oidx = Some opponent ->
  cmd_queue current = COMMAND data :: rest ->
  isdigit data && (0 <=? int data - 1)%Z
  && (int data - 1 <? Z.of_nat (List.length (tool_hand current)))%Z = true ->
  exists (tool : string) (t2 : Table),
    nth_error (tool_hand current) n = Some tool /\
    turn idx t
    = (extra_guess <- tool_effect idx oidx current opponent tool ;;
       guess_loop (if extra_guess then 2 else 1) idx oidx current opponent) t2 /\
    players (cm t2)
    = update_nth idx
        (fun p => set_tool_hand (firstn n (tool_hand current)
                                 ++ skipn (S n) (tool_hand current))
                                (set_cmd_queue rest p))
        (players (cm t)) /\
    discard_tool (game t2) = discard_tool (game t) ++ [tool] /\
    start_event (cm t2) = start_event (cm t) /\
    end_event (cm t2) = end_event (cm t) /\
    sent (wire (cm t2))
    = sent (wire (cm t)) ++ tool_prompt current (players (cm t))
      ++ [(socket current, ("USED_TOOL " ++ tool ++ nl)%string);
          (socket opponent, ("OPP_TOOL " ++ name current ++ " " ++ tool ++ nl)%string)].
Proof.
  intros oidx n Hcur Hopp Hq Hsel.
  destruct (turn_reads_item idx current opponent (COMMAND data) rest t Hcur Hopp Hq)
    as (t1 & Hturn & Hp1 & Hg1 & Hs1 & He1 & Hsent1).
  fold oidx in Hturn.
  assert (Hcur1 : nth_error (players (cm t1)) idx = Some (set_cmd_queue rest current))
    by (rewrite Hp1; now apply nth_error_update_eq).
  pose proof (tool_action_command idx oidx current opponent _ data t1 Hcur1) as Hstep.
  cbn zeta in Hstep. cbn [tool_hand set_cmd_queue] in Hstep. rewrite Hsel in Hstep.
  apply andb_prop in Hsel. destruct Hsel as [Hsel Hlt].
  apply andb_prop in Hsel. destruct Hsel as [_ Hge].
  apply Z.leb_le in Hge. apply Z.ltb_lt in Hlt.
  destruct (list_pop_Some (tool_hand current) n) as (tool & Hnth & Hpop); [subst n; lia|].
  fold n in Hstep. rewrite Hpop in Hstep. mred_in Hstep.
  exists tool. eexists. split; [exact Hnth|].
  split.
  { rewrite Hturn. unfold bind at 1. rewrite Hstep. reflexivity. }
  mred. cbn [players send_to set_wire set_players discard_tool set_discard_tool
             start_event end_event].
  rewrite Hp1, Hg1, Hs1, He1, update_nth_twice.
  repeat split.
  rewrite !sent_send_to. cbn [wire set_players]. rewrite Hsent1.
  now rewrite <- !app_assoc.
Qed.

(** C6: a turn in which the item read at the [TOOL] prompt is a
    [COMMAND].  When its text is a digit string with
    [1 <= int(text) <= len(tool_hand)], the card at that 1-based position
    leaves the acting player's tool hand for [discard_tool], both players
    are told, and the turn goes on with the card's effect and then the
    guess loop.  For any other text the turn goes on with a guess loop of
    exactly one pass, from a table where the only change since the
    prompts is the consumed queue item: nothing is sent after the [TOOL]
    line, the hands and the game are what they were. *)
Theorem tool_prompt_command :
  forall (idx : nat) (current opponent : Player) (data : string)
         (rest : list Event) (t : Table),
    let oidx := ((idx + 1) mod List.length (players (cm t)))%nat in
    let ci := (int data - 1)%Z in
    let n := Z.to_nat ci in
    nth_error (players (cm t)) idx = Some current ->
    nth_error (players (cm t)) oidx = Some opponent ->
    cmd_queue current = COMMAND data :: rest ->
    if isdigit data && (0 <=? ci)%Z && (ci <? Z.of_nat (List.length (tool_hand current)))%Z
    then
      exists (tool : string) (t2 : Table),
        nth_error (tool_hand current) n = Some tool /\
        turn idx t
        = (extra_guess <- tool_effect idx oidx current opponent tool ;;
           guess_loop (if extra_guess then 2 else 1) idx oidx current opponent) t2 /\
        players (cm t2)
        = update_nth idx
            (fun p => set_tool_hand (firstn n (tool_hand current)
                                     ++ skipn (S n) (tool_hand current))
                                    (set_cmd_queue rest p))
            (players (cm t)) /\
        discard_tool (game t2) = discard_tool (game t) ++ [tool] /\
        sent (wire (cm t2))
        = sent (wire (cm t)) ++ tool_prompt current (players (cm t))
          ++ [(socket current, ("USED_TOOL " ++ tool ++ nl)%string);
              (socket opponent,
               ("OPP_TOOL " ++ name current ++ " " ++ tool ++ nl)%string)]
    else
      exists t1 : Table,
        turn idx t = guess_loop 1 idx oidx current opponent t1 /\
        players (cm t1) = update_nth idx (set_cmd_queue rest) (players (cm t)) /\
        game t1 = game t /\
        sent (wire (cm t1)) = sent (wire (cm t)) ++ tool_prompt current (players (cm t)).
Proof.
  intros idx current opponent data rest t oidx ci n Hcur Hopp Hq.
  destruct (isdigit data && (0 <=? ci)%Z
            && (ci <? Z.of_nat (List.length (tool_hand current)))%Z) eqn:Hsel.
  - destruct (turn_plays_card idx current opponent data rest t Hcur Hopp Hq Hsel)
      as (tool & t2 & Hnth & Hturn & Hp & Hd & _ & _ & Hsent).
    exists tool, t2. auto.
  - destruct (turn_reads_item idx current opponent (COMMAND data) rest t Hcur Hopp Hq)
      as (t1 & Hturn & Hp1 & Hg1 & _ & _ & Hsent1).
    fold oidx in Hturn.
    assert (Hcur1 : nth_error (players (cm t1)) idx = Some (set_cmd_queue rest current))
      by (rewrite Hp1; now apply nth_error_update_eq).
    pose proof (tool_action_command idx oidx current opponent _ data t1 Hcur1) as Hstep.
    cbn zeta in Hstep. cbn [tool_hand set_cmd_queue] in Hstep. fold ci in Hstep.
    rewrite Hsel in Hstep.
    exists t1. split; [|auto].
    rewrite Hturn. unfold bind at 1. now rewrite Hstep.
Qed.

End ToolFacts.

Section PosFacts.
Context {HB : Hub}.
Variables (idx : nat) (current opponent : Player).

(** The loop over the invalid texts [bad] followed by the valid [p]:
    one [POS] line per invalid text, then the position. *)
Lemma pos_reprompt_valid (p : string) (rest : list Event) (bad : list string) :
  forall (t : Table) (ps0 : list Player),
    Forall (fun x => valid_pos (game t) x = false) bad ->
    valid_pos (game t) p = true ->
    players (cm t)
    = update_nth idx (set_cmd_queue (map COMMAND (tl (bad ++ [p])) ++ rest)) ps0 ->
    exists t',
      pos_reprompt (map COMMAND (tl (bad ++ [p])) ++ rest) idx current opponent
                   (hd p (bad ++ [p])) t
      = Next (int p) t' /\
      players (cm t') = update_nth idx (set_cmd_queue rest) ps0 /\
      game t' = game t /\
      sent (wire (cm t'))
      = sent (wire (cm t)) ++ repeat (socket current, ("POS" ++ nl)%string) (List.length bad).
Proof.
  induction bad as [|b bad IH]; intros t ps0 Hbad Hok Hps.
  - cbn [app tl hd map] in *. rewrite pos_reprompt_eq. mred. rewrite Hok. mred.
    exists t. cbn [repeat List.length]. rewrite app_nil_r. auto.
  - inversion Hbad as [|? ? Hb Hbad']; subst.
    cbn [app tl hd] in *. rewrite pos_reprompt_eq. mred. rewrite Hb. mred.
    assert (Hchain : map COMMAND (bad ++ [p]) ++ rest
                     = COMMAND (hd p (bad ++ [p]))
                       :: map COMMAND (tl (bad ++ [p])) ++ rest)
      by (destruct bad; reflexivity).
    rewrite Hchain in Hps |- *. mred.
    rewrite ev_type_never_DISCONNECTED. mred.
    match goal with |- context [pos_reprompt _ _ _ _ _ ?t1] =>
      destruct (IH t1 ps0) as (t' & Hrun & Hp & Hg & Hsent)
    end.
    + exact Hbad'.
    + exact Hok.
    + mred. cbn [players send_to set_wire]. rewrite Hps, update_nth_twice. reflexivity.
    + exists t'. split; [exact Hrun|].
      split; [exact Hp|]. split; [exact Hg|].
      rewrite Hsent. mred. rewrite sent_send_to, <- app_assoc.
      reflexivity.
Qed.

(** The loop over invalid texts only: one [POS] line per text, then the
    wait at line 330, which lasts while the hub has something else to
    run. *)
Lemma pos_reprompt_blocked (b : string) (bad : list string) :
  forall (t : Table) (ps0 : list Player),
    Forall (fun x => valid_pos (game t) x = false) (b :: bad) ->
    players (cm t) = update_nth idx (set_cmd_queue (map COMMAND bad)) ps0 ->
    exists t',
      pos_reprompt (HB := busy) (map COMMAND bad) idx current opponent b t
      = Stop (Blocked 330) t' /\
      players (cm t') = update_nth idx (set_cmd_queue []) ps0 /\
      game t' = game t /\
      sent (wire (cm t'))
      = sent (wire (cm t))
        ++ repeat (socket current, ("POS" ++ nl)%string) (S (List.length bad)).
Proof.
  revert b. induction bad as [|x bad IH]; intros b t ps0 Hbad Hps;
    inversion Hbad as [|? ? Hb Hbad']; subst;
    rewrite pos_reprompt_eq; mred; rewrite Hb; cbn [map]; mred.
  - eexists. split; [reflexivity|]. mred. cbn [players send_to set_wire].
    split; [exact Hps|]. split; [reflexivity|]. apply sent_send_to.
  - rewrite ev_type_never_DISCONNECTED. mred.
    match goal with |- context [pos_reprompt _ _ _ _ _ ?t1] =>
      destruct (IH x t1 ps0) as (t' & Hrun & Hp & Hg & Hsent)
    end.
    + exact Hbad'.
    + mred. cbn [players send_to set_wire]. rewrite Hps, update_nth_twice. reflexivity.
    + exists t'. split; [exact Hrun|].
      split; [exact Hp|]. split; [exact Hg|].
      rewrite Hsent. mred. rewrite sent_send_to, <- app_assoc.
      reflexivity.
Qed.

(** C7: in the [POS] branch the opponent's socket is sent the first
    [POS] line; then, as long as the text last read from the acting
    player's queue is not a digit string in [1, NUM_GUESS_DIGITS], one
    more [POS] line goes to the acting player and one more item is read.
    With the invalid texts [bad] followed by a valid [p], the branch ends
    by sending [POS_RESULT int(p) digit], [digit] being the opponent's
    answer at 1-based position [int(p)]; the only change to the roster
    and the game is the consumed queue items.  With only the invalid
    texts [bad] on the queue, no [POS_RESULT] is sent: the engine waits
    for the next item (the hub having something else to run). *)
Theorem pos_tool_reprompts :
  forall (oidx : nat) (cur opp : Player) (t : Table) (bad : list string),
    nth_error (players (cm t)) idx = Some cur ->
    nth_error (players (cm t)) oidx = Some opp ->
    idx <> oidx ->
    Forall (fun s => valid_pos (game t) s = false) bad ->
    let prompts :=
      (socket opponent, ("POS" ++ nl)%string)
        :: repeat (socket current, ("POS" ++ nl)%string) (List.length bad) in
    (forall (p : string) (rest : list Event) (digit : string),
        cmd_queue cur = map COMMAND bad ++ COMMAND p :: rest ->
        valid_pos (game t) p = true ->
        nth_error (answer opp) (Z.to_nat (int p - 1)) = Some digit ->
        exists t',
          pos_tool idx oidx current opponent t = Next tt t' /\
          sent (wire (cm t'))
          = sent (wire (cm t)) ++ prompts
            ++ [(socket current,
                 ("POS_RESULT " ++ fmt_d (int p) ++ " " ++ digit ++ nl)%string)] /\
          players (cm t') = update_nth idx (set_cmd_queue rest) (players (cm t)) /\
          game t' = game t)
    /\
    (cmd_queue cur = map COMMAND bad ->
     exists line t',
       pos_tool (HB := busy) idx oidx current opponent t = Stop (Blocked line) t' /\
       sent (wire (cm t')) = sent (wire (cm t)) ++ prompts /\
       players (cm t') = update_nth idx (set_cmd_queue []) (players (cm t)) /\
       game t' = game t).
Proof.
  intros oidx cur opp t bad Hcur Hopp Hneq Hbad prompts. split.
  - intros p rest digit Hq Hok Hdigit.
    unfold pos_tool, cmd_queue_get. mred.
    erewrite bind_player_at by (mred; cbn [players send_to set_wire]; exact Hcur).
    rewrite Hq.
    assert (Hchain : map COMMAND bad ++ COMMAND p :: rest
                     = COMMAND (hd p (bad ++ [p]))
                       :: map COMMAND (tl (bad ++ [p])) ++ rest).
    { destruct bad; cbn [map app hd tl]; [reflexivity|].
      now rewrite map_app, <- app_assoc. }
    rewrite Hchain. mred. rewrite ev_type_never_DISCONNECTED. mred.
    erewrite bind_player_at
      by (mred; cbn [players send_to set_wire]; apply nth_error_update_eq; exact Hcur).
    cbn [cmd_queue set_cmd_queue].
    match goal with |- context [bind (pos_reprompt _ _ _ _ _) _ ?t1] =>
      destruct (pos_reprompt_valid p rest bad t1 (players (cm t)) Hbad Hok eq_refl)
        as (t2 & Hrun & Hp & Hg & Hsent)
    end.
    rewrite (bind_Next _ _ _ _ _ Hrun).
    erewrite bind_player_at
      by (rewrite Hp, nth_error_update_neq by exact Hneq; exact Hopp).
    assert (Hpos : ToolCard_pos (answer opp) (int p) = Some digit).
    { unfold ToolCard_pos. unfold valid_pos in Hok.
      apply andb_prop in Hok. destruct Hok as [Hok _].
      apply andb_prop in Hok. destruct Hok as [_ Hok].
      now rewrite Hok. }
    rewrite Hpos. mred. eexists. split; [reflexivity|]. mred.
    split; [|split; [exact Hp | exact Hg]].
    rewrite sent_send_to, Hsent. mred. rewrite sent_send_to.
    subst prompts. cbn [app]. now rewrite <- !app_assoc.
  - intros Hq.
    unfold pos_tool, cmd_queue_get. mred.
    erewrite bind_player_at by (mred; cbn [players send_to set_wire]; exact Hcur).
    rewrite Hq. destruct bad as [|b bad]; cbn [map]; mred.
    + exists 309%nat. eexists. split; [reflexivity|]. mred.
      cbn [players send_to set_wire].
      split; [apply sent_send_to|]. split; [|reflexivity].
      symmetry. apply update_nth_same with (p := cur); trivial.
      destruct cur; cbn in Hq |- *. now rewrite Hq.
    + rewrite ev_type_never_DISCONNECTED. mred.
      erewrite bind_player_at
        by (mred; cbn [players send_to set_wire]; apply nth_error_update_eq; exact Hcur).
      cbn [cmd_queue set_cmd_queue].
      match goal with |- context [bind (pos_reprompt _ _ _ _ _) _ ?t1] =>
        destruct (pos_reprompt_blocked b bad t1 (players (cm t)) Hbad eq_refl)
          as (t2 & Hrun & Hp & Hg & Hsent)
      end.
      rewrite (bind_Stop _ _ _ _ _ Hrun).
      exists 330%nat, t2. split; [reflexivity|].
      split; [|split; [exact Hp | exact Hg]].
      rewrite Hsent. mred. rewrite sent_send_to.
      subst prompts. cbn [List.length repeat app]. now rewrite <- !app_assoc.
Qed.

End PosFacts.

(* ================================================================== *)
(** * Properties: where run_game can end *)
(* ================================================================== *)

Section Exits.
Context {A : Type} (P : Exit -> Table -> Prop).

Lemma exits_bind {B : Type} (m : M B) (k : B -> M A) :
  exits P m -> (forall b, exits P (k b)) -> exits P (bind m k).
Proof.
  intros Hm Hk t x t'. unfold bind.
  destruct (m t) as [b t1|x1 t1] eqn:Hmt.
  - apply Hk.
  - intros [= <- <-]. eapply Hm, Hmt.
Qed.

Lemma exits_ret (a : A) : exits P (ret a).
Proof. intros t x t'. discriminate. Qed.

Lemma exits_stop (x : Exit) : (forall t, P x t) -> exits P (@stop A x).
Proof. intros H t x' t' [= <- <-]. apply H. Qed.

Lemma exits_if (c : bool) (m1 m2 : M A) :
  exits P m1 -> exits P m2 -> exits P (if c then m1 else m2).
Proof. now destruct c. Qed.

End Exits.

Lemma exits_modify P f : exits P (modify f).
Proof. intros t x t'. discriminate. Qed.

Lemma exits_send P p msg : exits P (send p msg).
Proof. apply exits_modify. Qed.

Lemma exits_update_player P idx f : exits P (update_player idx f).
Proof. apply exits_modify. Qed.

Lemma exits_roster P : exits P roster.
Proof. intros t x t'. discriminate. Qed.

Lemma exits_the_game P : exits P the_game.
Proof. intros t x t'. discriminate. Qed.

Lemma exits_player_at (P : Exit -> Table -> Prop) idx line :
  (forall t, P (Raised IndexError line) t) -> exits P (player_at idx line).
Proof.
  intros H t x t'. unfold player_at.
  destruct (nth_error (players (cm t)) idx); [discriminate|].
  intros [= <- <-]. apply H.
Qed.

Lemma exits_msg_data (P : Exit -> Table -> Prop) msg line :
  (forall t, P (Raised KeyError line) t) -> exits P (msg_data msg line).
Proof.
  intros H. unfold msg_data. destruct (ev_data msg); [apply exits_ret|].
  now apply exits_stop.
Qed.

(** Where a queue read may end: in what follows the item; in the wait,
    while the hub has something else to run; in the handler, when it has
    not. *)
Lemma exits_cmd_queue_get {HB : Hub} {A} (P : Exit -> Table -> Prop) idx line
      (item : Event -> M A) (handler : M A) :
  (forall t, P (Raised IndexError line) t) ->
  (nothing_left_to_run = false -> forall t, P (Blocked line) t) ->
  (nothing_left_to_run = true -> exits P handler) ->
  (forall msg, exits P (item msg)) ->
  exits P (cmd_queue_get idx line item handler).
Proof.
  intros Hidx Hblk Hhandler Hitem. unfold cmd_queue_get.
  apply exits_bind; [now apply exits_player_at|].
  intros current. destruct (cmd_queue current) as [|msg rest]; cbn [Queue_get].
  - destruct nothing_left_to_run; [now apply Hhandler | now apply exits_stop; apply Hblk].
  - apply exits_bind; [apply exits_update_player | intros _; apply Hitem].
Qed.

Lemma exits_send_each P ps msg : exits P (send_each ps msg).
Proof.
  induction ps as [|p ps IH]; cbn [send_each]; [apply exits_ret|].
  apply exits_bind; [apply exits_send | intros _; exact IH].
Qed.

Lemma exits_send_hands P ps : exits P (send_hands ps).
Proof.
  induction ps as [|p ps IH]; cbn [send_hands]; [apply exits_ret|].
  apply exits_bind; [apply exits_send | intros _; exact IH].
Qed.

Lemma exits_send_status P ps current : exits P (send_status ps current).
Proof.
  induction ps as [|p ps IH]; cbn [send_status]; [apply exits_ret|].
  apply exits_bind; [|intros _; exact IH].
  apply exits_if; [apply exits_ret | apply exits_send].
Qed.

Lemma engine_exit_raised {HB : Hub} e line t :
  e <> AttributeError -> e <> LoopExit -> line <> 284%nat ->
  engine_exit (Raised e line) t.
Proof. intros H1 H2 H3. right. repeat split; assumption. Qed.

Lemma engine_exit_blocked {HB : Hub} line t :
  nothing_left_to_run = false ->
  In line [281; 309; 330; 381]%nat -> engine_exit (Blocked line) t.
Proof. intros H1 H2. split; assumption. Qed.

(** The handlers around the queue reads, run on [LoopExit]. *)
Lemma exits_abort_for_opponent {HB : Hub} {A} current opponent line :
  nothing_left_to_run = true ->
  In line [316; 337; 388]%nat ->
  exits engine_exit (@abort_for_opponent A current opponent line).
Proof.
  intros Hhub Hline t x t'. unfold abort_for_opponent, bind, send, modify, stop.
  intros [= <- <-]. cbn [engine_exit]. right. right. split; assumption.
Qed.

Lemma exits_handle_disconnect_284 {HB : Hub} {A} :
  nothing_left_to_run = true ->
  exits engine_exit (@self_handle_disconnect A 284).
Proof.
  intros Hhub t x t'. unfold self_handle_disconnect, stop.
  intros [= <- <-]. cbn [engine_exit]. left. repeat split. exact Hhub.
Qed.

Create HintDb exits.

#[local] Hint Resolve exits_ret exits_modify exits_send exits_update_player
  exits_roster exits_the_game exits_send_each exits_send_hands exits_send_status
  exits_player_at exits_msg_data exits_stop : exits.
#[local] Hint Extern 1 (engine_exit (Raised _ _) _) =>
  apply engine_exit_raised; discriminate : exits.
#[local] Hint Extern 1 (engine_exit (Blocked _) _) =>
  apply engine_exit_blocked; [assumption | cbn; tauto] : exits.
#[local] Hint Extern 1 (exits engine_exit (abort_for_opponent _ _ _)) =>
  apply exits_abort_for_opponent; [assumption | cbn; tauto] : exits.
#[local] Hint Extern 1 (exits engine_exit (self_handle_disconnect 284)) =>
  apply exits_handle_disconnect_284; assumption : exits.

(** Walks down a computation built from the monad's primitives. *)
Ltac exits_walk :=
  repeat first
    [ rewrite ev_type_never_DISCONNECTED
    | solve [auto with exits]
    | apply exits_cmd_queue_get; [| intros ? | intros ? | intros ?]
    | apply exits_bind; [|intros ?]
    | apply exits_if
    | match goal with
      | |- exits _ (match ?x with Some _ => _ | None => _ end) => destruct x
      | |- exits _ (let (_, _) := ?x in _) => destruct x
      | |- exits _ (match ?x with (_, _) => _ end) => destruct x
      end ].

Section EngineExits.

Context {GM : GameModel} {HB : Hub}.

Lemma exits_pos_reprompt q : forall idx current opponent pos_str,
  exits engine_exit (pos_reprompt q idx current opponent pos_str).
Proof.
  induction q as [|msg rest IH]; intros idx current opponent pos_str;
    rewrite pos_reprompt_eq; cbn [Queue_get];
    [destruct nothing_left_to_run eqn:Hhub|]; exits_walk.
Qed.

#[local] Hint Resolve exits_pos_reprompt : exits.

Lemma exits_pos_tool idx oidx current opponent :
  exits engine_exit (pos_tool idx oidx current opponent).
Proof. unfold pos_tool. exits_walk. Qed.

#[local] Hint Resolve exits_pos_tool : exits.

Lemma exits_reset_turn_return :
  exits engine_exit (reset_turn ;; @stop unit (Returned 411)).
Proof.
  intros t x t'. unfold reset_turn, bind, modify, stop.
  intros [= <- <-]. cbn. right. left. split; [reflexivity|]. now exists t.
Qed.

#[local] Hint Resolve exits_reset_turn_return : exits.

Lemma exits_tool_effect idx oidx current opponent tool :
  exits engine_exit (tool_effect idx oidx current opponent tool).
Proof. unfold tool_effect. exits_walk. Qed.

#[local] Hint Resolve exits_tool_effect : exits.

Lemma exits_tool_action idx oidx current opponent msg :
  exits engine_exit (tool_action idx oidx current opponent msg).
Proof. unfold tool_action. exits_walk. Qed.

Lemma exits_discard_guess idx ds : exits engine_exit (discard_guess idx ds).
Proof. induction ds as [|d more IH]; cbn [discard_guess]; exits_walk. Qed.

Lemma exits_do_draw_up idx : exits engine_exit (do_draw_up idx).
Proof. unfold do_draw_up. exits_walk. Qed.

#[local] Hint Resolve exits_tool_action exits_discard_guess exits_do_draw_up : exits.

Lemma exits_guess_once idx oidx current opponent :
  exits engine_exit (guess_once idx oidx current opponent).
Proof. unfold guess_once, broadcast. exits_walk. Qed.

#[local] Hint Resolve exits_guess_once : exits.

Lemma exits_guess_loop guesses idx oidx current opponent :
  exits engine_exit (guess_loop guesses idx oidx current opponent).
Proof. induction guesses as [|n IH]; cbn [guess_loop]; exits_walk. Qed.

#[local] Hint Resolve exits_guess_loop : exits.

Lemma exits_turn idx : exits engine_exit (turn idx).
Proof. unfold turn. exits_walk. Qed.

#[local] Hint Resolve exits_turn : exits.

Lemma exits_for_turns idxs : exits engine_exit (for_turns idxs).
Proof. induction idxs as [|idx more IH]; cbn [for_turns]; exits_walk. Qed.

#[local] Hint Resolve exits_for_turns : exits.

Lemma exits_round_loop n : exits engine_exit (round_loop n).
Proof.
  induction n as [|n IH]; cbn [round_loop]; exits_walk.
  apply exits_stop. intros t. cbn. now left.
Qed.

#[local] Hint Resolve exits_round_loop : exits.

Lemma exits_play : exits engine_exit play.
Proof. unfold play, deal_hands, reset_turn. exits_walk. Qed.

Lemma lands_play : lands (fun t => exists t0, t = on_cm reset_turn_server t0) play.
Proof.
  intros t a t'. unfold play, reset_turn, modify, bind.
  repeat match goal with
         | |- context [match ?m ?s with Next _ _ => _ | Stop _ _ => _ end] =>
             destruct (m s); try discriminate
         end.
  intros [= _ <-]. eexists. reflexivity.
Qed.

(** Where a call of [run_game] can end. *)
Lemma run_game_exit (w : Server) :
  (start_event w = false /\
   run_game w
   = (if nothing_left_to_run then Raised LoopExit 230 else Blocked 230, w)) \/
  (start_event w = true /\
   exists t, (fst (run_game w) = Returned 418 \/ engine_exit (fst (run_game w)) t) /\
             snd (run_game w) = cm t /\
             (forall line, fst (run_game w) = Returned line ->
                           (line = 411 \/ line = 418)%nat ->
                           exists t0, t = on_cm reset_turn_server t0)).
Proof.
  unfold run_game. destruct (start_event w); [right | left; now split].
  split; [reflexivity|].
  destruct (Game_new (players w)) as [g ps].
  destruct (play (mkTable (set_players ps w) g)) as [[] t|x t] eqn:Hplay; exists t; cbn [fst snd].
  - split; [now left|]. split; [reflexivity|].
    intros _ _ _. exact (lands_play _ _ _ Hplay).
  - pose proof (exits_play _ _ _ Hplay) as Hexit.
    split; [now right|]. split; [reflexivity|].
    intros line Hx Hl. subst x. cbn in Hexit.
    destruct Hexit as [Hexit|[[_ Hexit]|[_ Hexit]]].
    + destruct Hl; lia.
    + exact Hexit.
    + destruct Hl; lia.
Qed.

(** The exits of [run_game], by line. *)
Lemma run_game_exit_lines (w : Server) :
  match fst (run_game w) with
  | Returned line =>
      In line [253; 411; 418]%nat \/
      (nothing_left_to_run = true /\ In line [316; 337; 388]%nat)
  | Blocked line =>
      nothing_left_to_run = false /\ In line [230; 281; 309; 330; 381]%nat
  | Raised e line =>
      (e = LoopExit /\ line = 230%nat /\ nothing_left_to_run = true) \/
      (e = AttributeError /\ line = 284%nat /\ nothing_left_to_run = true) \/
      (e <> AttributeError /\ e <> LoopExit /\ line <> 284%nat)
  end.
Proof.
  destruct (run_game_exit w) as [[_ ->]|(_ & t & [H418|Hexit] & _)].
  - cbn [fst]. destruct nothing_left_to_run eqn:Hhub; cbn; tauto.
  - rewrite H418. cbn. tauto.
  - destruct (fst (run_game w)) as [line|line|e line]; cbn in Hexit |- *.
    + destruct Hexit as [->|[[-> _]|Hexit]]; tauto.
    + tauto.
    + tauto.
Qed.

End EngineExits.

(* ================================================================== *)
(** * Properties: the handlers around the queue reads *)
(* ================================================================== *)

Section HandlerFacts.

Context {GM : GameModel} {HB : Hub}.





End HandlerFacts.



(* ================================================================== *)
(** * Properties: the engine on concrete games *)
(* ================================================================== *)


Lemma exact_match_wins_witness :
  exists t',
    guess_loop (GM := Sample.rules) (HB := busy) 1 0 1 Sample.alice Sample.bob
               (Sample.table Sample.guessing_alice Sample.bob)
    = Stop (Returned 411) t' /\
    players (cm t') = [] /\
    In (2%nat, ("WINNER A" ++ nl)%string) (sent (wire (cm t'))) /\
    In 2%nat (closed (wire (cm t'))).
Proof.
  destruct (exact_match_wins (GM := Sample.rules) (HB := busy)
               0 0 1 Sample.alice Sample.bob
               Sample.guessing_alice Sample.bob
               (Sample.table Sample.guessing_alice Sample.bob) "1234" []
               ["5"] ["5"; "0"; "1"; "2"; "3"]
               (mkGame 3 4 ["4"; "5"; "6"; "7"; "8"; "9"] ["1"; "2"; "3"; "4"] [])
               4%Z 0%Z)
    as (t' & Hrun & _ & Hroster & _ & Hall).
  - vm_compute. reflexivity.
  - vm_compute. reflexivity.
  - discriminate.
  - vm_compute. reflexivity.
  - vm_compute. reflexivity.
  - vm_compute. reflexivity.
  - vm_compute. reflexivity.
  - vm_compute. reflexivity.
  - exists t'. split; [exact Hrun|]. split; [exact Hroster|].
    apply (Hall Sample.bob). right. left. reflexivity.
Defined.

(** The example of the specification: tool index [9] with a tool hand of
    two cards. *)
Lemma tool_prompt_command_witness :
  exists t1,
    turn (GM := Sample.rules) (HB := busy) 0
         (Sample.table Sample.lucky_alice Sample.bob)
    = guess_loop (GM := Sample.rules) (HB := busy) 1 0 1
                 Sample.lucky_alice Sample.bob t1 /\
    map cmd_queue (players (cm t1)) = [[COMMAND "1234"]; []] /\
    game t1 = game (Sample.table Sample.lucky_alice Sample.bob) /\
    sent (wire (cm t1))
    = [(1%nat, hand_msg Sample.alice);
       (2%nat, ("STATUS A" ++ nl)%string);
       (1%nat, ("TOOL" ++ nl)%string)].
Proof.
  pose proof (tool_prompt_command (GM := Sample.rules) (HB := busy) 0
                Sample.lucky_alice Sample.bob "9" [COMMAND "1234"]
                (Sample.table Sample.lucky_alice Sample.bob)
                eq_refl eq_refl eq_refl) as H.
  cbn zeta in H.
  change (isdigit "9" && (0 <=? int "9" - 1)%Z
          && (int "9" - 1 <? Z.of_nat (List.length (tool_hand Sample.lucky_alice)))%Z)
    with false in H.
  destruct H as (t1 & Hturn & Hp & Hg & Hsent).
  exists t1. split; [exact Hturn|]. rewrite Hp, Hg, Hsent.
  repeat split.
Defined.

Lemma pos_tool_reprompts_witness :
  exists t',
    pos_tool (HB := busy) 0 1 Sample.alice Sample.bob
             (Sample.table Sample.probing_alice Sample.bob)
    = Next tt t' /\
    sent (wire (cm t'))
    = [(2%nat, ("POS" ++ nl)%string); (1%nat, ("POS" ++ nl)%string);
       (1%nat, ("POS" ++ nl)%string); (1%nat, ("POS_RESULT 3 3" ++ nl)%string)] /\
    map cmd_queue (players (cm t')) = [[COMMAND "1234"]; []].
Proof.
  destruct (pos_tool_reprompts (HB := busy) 0 Sample.alice Sample.bob 1
              Sample.probing_alice Sample.bob
              (Sample.table Sample.probing_alice Sample.bob) ["x"; "7"])
    as [Hvalid _].
  - vm_compute. reflexivity.
  - vm_compute. reflexivity.
  - discriminate.
  - repeat constructor.
  - destruct (Hvalid "03" [COMMAND "1234"] "3")
      as (t' & Hrun & Hsent & Hplayers & _).
    + vm_compute. reflexivity.
    + vm_compute. reflexivity.
    + vm_compute. reflexivity.
    + exists t'. split; [exact Hrun|]. split; [exact Hsent|].
      rewrite Hplayers. vm_compute. reflexivity.
Defined.

(** C1 (the code at a failing input): Alice's Reader has put its
    [{"type": "DISCONNECT"}] on her queue.  The engine reads it at the
    [TOOL] prompt, compares its type with ["DISCONNECTED"], takes it for
    "no tool" and prompts the gone player for a guess.  While the hub has
    something else to run it then waits at line 381: no [WINNER] is sent,
    both players stay on the roster and the end latch is not set.  (When
    nothing is left to run, the same prompts go out and it is the
    [LoopExit] of that read, not the item, that ends the game at line
    388.)  When Alice had sent [skip] before her connection dropped, the
    item is read at the [GUESS] prompt and line 394 raises [KeyError],
    whatever the hub.  More generally, whatever the game and the state of
    the server, a call of [run_game] that returns does so at line 253,
    411 or 418, or, on a [LoopExit], from a handler at line 316, 337 or
    388 -- never from one of the branches that test for the item. *)
Theorem run_game_misses_disconnect :
  cmd_queue Sample.dropped_alice = [DISCONNECT] /\
  (let r := run_game (GM := Sample.rules) (HB := busy)
                     (Sample.lobby Sample.dropped_alice Sample.bob) in
   fst r = Blocked 381 /\
   end_event (snd r) = false /\
   map name (players (snd r)) = ["A"; "B"] /\
   sent (wire (snd r))
   = [(2%nat, hand_msg Sample.bob);
      (1%nat, hand_msg Sample.alice);
      (2%nat, ("STATUS A" ++ nl)%string);
      (1%nat, ("TOOL" ++ nl)%string);
      (1%nat, hand_msg Sample.alice);
      (1%nat, ("GUESS 1,2,3,4,5" ++ nl)%string)]) /\
  (let r := run_game (GM := Sample.rules) (HB := idle)
                     (Sample.lobby Sample.dropped_alice Sample.bob) in
   fst r = Returned 388 /\
   sent (wire (snd r))
   = [(2%nat, hand_msg Sample.bob);
      (1%nat, hand_msg Sample.alice);
      (2%nat, ("STATUS A" ++ nl)%string);
      (1%nat, ("TOOL" ++ nl)%string);
      (1%nat, hand_msg Sample.alice);
      (1%nat, ("GUESS 1,2,3,4,5" ++ nl)%string);
      (2%nat, ("WINNER B" ++ nl)%string)]) /\
  cmd_queue Sample.late_dropped_alice = [COMMAND "skip"; DISCONNECT] /\
  (forall HB : Hub,
   let r := run_game (GM := Sample.rules)
                     (Sample.lobby Sample.late_dropped_alice Sample.bob) in
   fst r = Raised KeyError 394 /\
   end_event (snd r) = false /\
   map name (players (snd r)) = ["A"; "B"]) /\
  forall (GM : GameModel) (HB : Hub) (w : Server),
    match fst (run_game w) with
    | Returned line =>
        In line [253; 411; 418]%nat \/
        (nothing_left_to_run = true /\ In line [316; 337; 388]%nat)
    | _ => True
    end.
Proof.
  split; [reflexivity|]. split; [vm_compute; repeat split; reflexivity|].
  split; [vm_compute; repeat split; reflexivity|].
  split; [reflexivity|]. split; [intros HB; vm_compute; repeat split; reflexivity|].
  intros GM HB w. pose proof (run_game_exit_lines w) as H.
  destruct (fst (run_game w)); [exact H | exact I | exact I].
Qed.

(** C2 (the code at a failing input): Alice skips the tool and guesses
    [1239] with the hand [1,2,3,4,5].  Line 397 removes [1], [2] and [3]
    from her hand and raises [ValueError] on [9]; nothing catches it, so
    the call of [run_game] ends by that exception.  The same happens in
    any game, for any acting player, whenever the text read at the
    [GUESS] prompt has a character that is not in the number hand. *)
Theorem run_game_crashes_on_absent_digit :
  remove_all (chars "1239") (number_hand Sample.careless_alice) = None /\
  (forall HB : Hub,
   let r := run_game (GM := Sample.rules)
                     (Sample.lobby Sample.careless_alice Sample.bob) in
   fst r = Raised ValueError 397 /\
   map number_hand (players (snd r))
   = [["4"; "5"]; ["6"; "7"; "8"; "9"; "0"]]) /\
  forall (GM : GameModel) (HB : Hub) (idx oidx : nat) (current opponent cur : Player)
         (t : Table) (guess : string) (rest : list Event),
    nth_error (players (cm t)) idx = Some cur /\
    cmd_queue cur = COMMAND guess :: rest /\
    remove_all (chars guess) (number_hand cur) = None ->
    exists t',
      guess_once idx oidx current opponent t = Stop (Raised ValueError 397) t'.
Proof.
  split; [reflexivity|]. split; [intros HB; vm_compute; split; reflexivity|].
  intros GM HB idx oidx current opponent cur t guess rest (Hcur & Hq & Hrem).
  exact (guess_once_raises idx oidx current opponent cur t guess rest Hcur Hq Hrem).
Qed.

(* ================================================================== *)
(** * More on the accept loop and [send_to] *)
(* ================================================================== *)

Lemma accept_one_room (fd : nat) (addr : string) (w : Server) :
  (List.length (players w) < 2)%nat ->
  accept_one fd addr w
  = Continue
      (mkServer (players w ++ [new_player (S (List.length (players w))) fd addr])
                (start_event w || (List.length (players w) =? 1)%nat)
                (end_event w) (wire w) (broken w)
                (spawned w ++ session_tasks fd)).
Proof.
  intros Hroom. unfold accept_one.
  destruct (Nat.leb_spec 2 (List.length (players w))) as [Hge|_]; [lia|].
  cbn [players set_spawned set_players spawned]. rewrite length_app. cbn [List.length].
  destruct (players w) as [|a [|b l]]; cbn in Hroom |- *; try lia.
  - now rewrite orb_false_r.
  - now rewrite orb_true_r.
Qed.

(** The accept loop picks up where it was: serving [pre ++ post] is
    serving [post] from the state [pre] leaves, as long as [pre] did not
    end the loop. *)
Lemma serve_forever_app :
  forall (pre post : list Accept) (w : Server),
    serve_forever (pre ++ post) w
    = match fst (serve_forever pre w) with
      | ServeWaiting => serve_forever post (snd (serve_forever pre w))
      | _ => serve_forever pre w
      end.
Proof.
  induction pre as [|[fd addr|] pre IH]; intros post w; cbn [app serve_forever].
  - reflexivity.
  - destruct (accept_one fd addr w) as [w'|w']; [apply IH | reflexivity].
  - reflexivity.
Qed.

(** X2: Whatever comes in and in whatever state, the accept loop only
    appends to the roster, never past two players; it spawns the
    Heartbeat and the Reader of exactly the sessions it appended, leaves
    the end latch alone, and sets the start latch exactly when it
    appended the player that made the roster two. *)
Theorem serve_forever_roster_grows :
  forall (incoming : list Accept) (w : Server),
    exists l,
      players (snd (serve_forever incoming w)) = players w ++ l /\
      (List.length l <= 2 - List.length (players w))%nat /\
      spawned (snd (serve_forever incoming w))
      = spawned w ++ flat_map (fun p => session_tasks (socket p)) l /\
      end_event (snd (serve_forever incoming w)) = end_event w /\
      start_event (snd (serve_forever incoming w))
      = start_event w
        || ((List.length (players w) <? 2)%nat
            && (List.length (players w ++ l) =? 2)%nat).
Proof.
  induction incoming as [|[fd addr|] more IH]; intros w; cbn [serve_forever].
  - exists []. cbn [snd]. rewrite !app_nil_r. cbn [List.length flat_map].
    repeat split; try lia.
    destruct (List.length (players w)) as [|[|[|n]]]; cbn; now rewrite ?orb_false_r.
  - destruct (Nat.lt_ge_cases (List.length (players w)) 2) as [Hroom|Hfull].
    + rewrite (accept_one_room fd addr w Hroom).
      match goal with |- context [serve_forever more ?w1] =>
        destruct (IH w1) as (l & Hp & Hlen & Hsp & He & Hst)
      end.
      cbn [players spawned end_event start_event] in Hp, Hlen, Hsp, He, Hst.
      exists (new_player (S (List.length (players w))) fd addr :: l).
      rewrite Hp, Hsp, He, Hst. rewrite length_app in *. cbn [List.length] in *.
      rewrite <- !app_assoc. cbn [app flat_map socket new_player].
      repeat split; try lia.
      rewrite !length_app. cbn [List.length].
      destruct (players w) as [|a [|b r]]; cbn in Hroom, Hlen |- *; try lia;
        destruct l as [|x [|y l]]; cbn in Hlen |- *; try lia;
        now rewrite ?orb_false_r, ?orb_true_r.
    + rewrite (accept_one_full fd addr w Hfull).
      destruct (sendall_raises w fd); cbn [snd].
      * exists []. rewrite !app_nil_r. cbn [List.length flat_map].
        repeat split; try lia.
        destruct (Nat.ltb_spec (List.length (players w)) 2); [lia|].
        now rewrite orb_false_r.
      * destruct (serve_forever_full more (log (Sendall fd "FULL") w) Hfull)
          as (Hp & Hs & Hst & _).
        destruct (IH (log (Sendall fd "FULL") w)) as (l & Hp' & Hlen & _ & He & _).
        exists []. rewrite !app_nil_r. cbn [List.length flat_map].
        rewrite Hp, Hs, Hst, He. cbn [players log set_wire spawned start_event end_event].
        repeat split; try lia.
        destruct (Nat.ltb_spec (List.length (players w)) 2); [lia|].
        now rewrite orb_false_r.
  - exists []. cbn [snd]. rewrite !app_nil_r. cbn [List.length flat_map].
    repeat split; try lia.
    destruct (List.length (players w)) as [|[|[|n]]]; cbn; now rewrite ?orb_false_r.
Qed.

(** X3: A failed [accept] (lines 55-58) ends the loop there: the state is
    the one the connections before it left, and whatever would have come
    after it is never looked at. *)
Theorem serve_forever_stops_at_failure :
  forall (pre post : list Accept) (w : Server),
    serve_forever (pre ++ AcceptFailed :: post) w
    = (match fst (serve_forever pre w) with
       | ServeWaiting => ServeStopped
       | st => st
       end,
       snd (serve_forever pre w)).
Proof.
  intros pre post w. rewrite serve_forever_app.
  destruct (serve_forever pre w) as [[] w']; reflexivity.
Qed.

(** X4: The [sendall] of line 61 is under no [try]: when the roster is
    full and the peer of the new connection is already gone, the
    exception ends [serve_forever] for good -- no later connection is
    accepted -- after that one failed socket call. *)
Theorem serve_forever_dies_on_failed_reject :
  forall (pre post : list Accept) (client_sock : nat) (client_addr : string) (w : Server),
    fst (serve_forever pre w) = ServeWaiting ->
    (2 <= List.length (players (snd (serve_forever pre w))))%nat ->
    sendall_raises (snd (serve_forever pre w)) client_sock = true ->
    serve_forever (pre ++ Accepted client_sock client_addr :: post) w
    = (ServeCrashed, log (Sendall client_sock "FULL") (snd (serve_forever pre w))).
Proof.
  intros pre post fd addr w Hwait Hfull Hraise.
  rewrite serve_forever_app, Hwait. cbn [serve_forever].
  now rewrite (accept_one_full fd addr _ Hfull), Hraise.
Qed.

Lemma sendall_raises_log_send (w : Server) (fd fd' : nat) (msg : string) :
  sendall_raises (log (Sendall fd' msg) w) fd = sendall_raises w fd.
Proof.
  unfold sendall_raises, log. cbn [broken wire set_wire].
  rewrite existsb_app. cbn. now rewrite !orb_false_r.
Qed.

Lemma serve_forever_full_healthy (conns : list (nat * string)) :
  forall w : Server,
    (2 <= List.length (players w))%nat ->
    (forall c, In c conns -> sendall_raises w (fst c) = false) ->
    serve_forever (arrivals conns) w
    = (ServeWaiting,
       set_wire (wire w ++ map (fun c => Sendall (fst c) "FULL") conns) w).
Proof.
  induction conns as [|[fd addr] conns IH]; intros w Hfull Hok; cbn [arrivals map serve_forever].
  - rewrite app_nil_r. now destruct w.
  - cbn [fst snd]. rewrite (accept_one_full fd addr w Hfull).
    pose proof (Hok (fd, addr) (or_introl eq_refl)) as Hfd. cbn [fst] in Hfd.
    rewrite Hfd.
    fold (arrivals conns). rewrite IH.
    + unfold log. cbn [wire set_wire]. now rewrite <- app_assoc.
    + exact Hfull.
    + intros c Hc. rewrite sendall_raises_log_send. apply Hok. now right.
Qed.

(** X1: From a fresh [ConnectionManager], when the accept loop is handed
    any list of connections and the peers of the connections after the
    second can be written to, the first two become the sessions
    [玩家1] and [玩家2] with empty queues, in the order they came, each
    with its Heartbeat and its Reader task; every later connection gets
    [FULL] and nothing else; the start latch is set exactly when two
    connections or more came, and the loop goes on waiting. *)
Theorem serve_forever_seats_first_two :
  forall (gone : list nat) (conns : list (nat * string)),
    (forall c, In c (skipn 2 conns) -> ~ In (fst c) gone) ->
    serve_forever (arrivals conns) (ConnectionManager_init gone)
    = (ServeWaiting,
       mkServer
         (map (fun ic => new_player (S (fst ic)) (fst (snd ic)) (snd (snd ic)))
              (combine (seq 0 2) conns))
         (2 <=? List.length conns)%nat
         false
         (map (fun c => Sendall (fst c) "FULL") (skipn 2 conns))
         gone
         (flat_map (fun c => session_tasks (fst c)) (firstn 2 conns))).
Proof.
  intros gone conns Hok.
  destruct conns as [|[fd1 a1] [|[fd2 a2] rest]]; try reflexivity.
  cbn [arrivals map serve_forever fst snd].
  rewrite accept_one_room by (cbn; lia).
  cbn [ConnectionManager_init players List.length app start_event end_event wire broken spawned].
  rewrite accept_one_room by (cbn; lia).
  cbn [players List.length app start_event end_event wire broken spawned].
  fold (arrivals rest). rewrite serve_forever_full_healthy.
  - reflexivity.
  - cbn. lia.
  - intros c Hc. unfold sendall_raises. cbn [broken wire existsb orb].
    rewrite orb_false_r.
    destruct (existsb (Nat.eqb (fst c)) gone) eqn:He; [|reflexivity].
    apply existsb_exists in He. destruct He as (x & Hx & Heq).
    apply Nat.eqb_eq in Heq. subst x. exfalso. exact (Hok c Hc Hx).
Qed.

(** X5: [send_to] makes one [sendall] call with the message, closes the
    socket exactly when that call fails, changes the roster and the
    latches in no case, and changes no socket's status: a socket raises
    after the call if and only if it raised before. *)
Theorem send_to_keeps_socket_status :
  forall (p : Player) (msg : string) (w : Server) (fd : nat),
    sendall_raises (send_to p msg w) fd = sendall_raises w fd /\
    closed (wire (send_to p msg w))
    = closed (wire w) ++ (if sendall_raises w (socket p) then [socket p] else []) /\
    sent (wire (send_to p msg w)) = sent (wire w) ++ [(socket p, msg)] /\
    players (send_to p msg w) = players w /\
    start_event (send_to p msg w) = start_event w /\
    end_event (send_to p msg w) = end_event w.
Proof.
  intros p msg w fd.
  split; [|split; [apply closed_send_to | split; [apply sent_send_to | auto]]].
  unfold send_to, sendall_raises at 1. cbn [broken wire set_wire].
  rewrite existsb_app. cbn [existsb is_close orb].
  destruct (sendall_raises w (socket p)) eqn:Hr; cbn [existsb is_close orb];
    rewrite ?orb_false_r; [|reflexivity].
  unfold sendall_raises in *.
  destruct (Nat.eqb_spec (socket p) fd) as [<-|Hne].
  - rewrite Hr. now rewrite !orb_true_r.
  - now rewrite orb_false_r.
Qed.

(* ================================================================== *)
(** * More on the Reader *)
(* ================================================================== *)

Lemma sapp_assoc (a b c : string) : ((a ++ b) ++ c)%string = (a ++ (b ++ c))%string.
Proof. induction a as [|x a IH]; cbn; [reflexivity | now rewrite IH]. Qed.

Lemma sapp_nil_r (a : string) : (a ++ EmptyString)%string = a.
Proof. induction a as [|x a IH]; cbn; [reflexivity | now rewrite IH]. Qed.

Lemma has_nl_app (a b : string) : has_nl (a ++ b) = has_nl a || has_nl b.
Proof.
  induction a as [|x a IH]; cbn; [reflexivity|]. now rewrite IH, orb_assoc.
Qed.

Lemma split_lines_unlines (buf : string) :
  forall cur : string,
    (unlines (fst (split_lines buf cur)) ++ snd (split_lines buf cur))%string
    = (cur ++ buf)%string.
Proof.
  induction buf as [|c r IH]; intros cur; cbn [split_lines].
  - cbn. now rewrite sapp_nil_r.
  - destruct (Ascii.eqb_spec c (ascii_of_nat 10)) as [->|Hc].
    + specialize (IH EmptyString).
      destruct (split_lines r EmptyString) as [ls rest]. cbn [fst snd unlines] in *.
      rewrite !sapp_assoc, IH. reflexivity.
    + rewrite IH, sapp_assoc. reflexivity.
Qed.

Lemma split_lines_no_nl (buf : string) :
  forall cur : string,
    has_nl cur = false ->
    has_nl (snd (split_lines buf cur)) = false /\
    forallb (fun l => negb (has_nl l)) (fst (split_lines buf cur)) = true.
Proof.
  induction buf as [|c r IH]; intros cur Hcur; cbn [split_lines].
  - cbn. auto.
  - destruct (Ascii.eqb c (ascii_of_nat 10)) eqn:Hc.
    + destruct (IH EmptyString eq_refl) as [H1 H2].
      destruct (split_lines r EmptyString) as [ls rest]. cbn [fst snd forallb] in *.
      now rewrite Hcur, H2.
    + apply IH. rewrite has_nl_app, Hcur. cbn [has_nl orb]. now rewrite Hc.
Qed.

(** X6: Line framing: the lines cut out of a buffer, put back with their
    line feeds and followed by what is left, give the buffer back; no
    line and no left-over holds a line feed. *)
Theorem split_lines_round_trip :
  forall buf : string,
    (unlines (fst (split_lines buf EmptyString)) ++ snd (split_lines buf EmptyString))%string
    = buf /\
    has_nl (snd (split_lines buf EmptyString)) = false /\
    forallb (fun l => negb (has_nl l)) (fst (split_lines buf EmptyString)) = true.
Proof.
  intros buf. split; [exact (split_lines_unlines buf EmptyString)|].
  exact (split_lines_no_nl buf EmptyString eq_refl).
Qed.

Lemma split_lines_app (x : string) :
  forall (y cur : string),
    split_lines (x ++ y) cur
    = (fst (split_lines x cur) ++ fst (split_lines y (snd (split_lines x cur))),
       snd (split_lines y (snd (split_lines x cur)))).
Proof.
  induction x as [|c r IH]; intros y cur; cbn [append split_lines].
  - cbn. now destruct (split_lines y cur).
  - destruct (Ascii.eqb c (ascii_of_nat 10)).
    + rewrite IH. destruct (split_lines r EmptyString) as [ls rest]. reflexivity.
    + apply IH.
Qed.

Lemma split_lines_left_over (r : string) :
  forall (b cur : string),
    has_nl r = false ->
    split_lines (r ++ b) cur = split_lines b (cur ++ r).
Proof.
  induction r as [|c r IH]; intros b cur Hr; cbn [append].
  - now rewrite sapp_nil_r.
  - cbn [has_nl] in Hr. apply orb_false_elim in Hr. destruct Hr as [Hc Hr].
    cbn [split_lines]. rewrite Hc, IH by exact Hr.
    now rewrite sapp_assoc.
Qed.

Lemma all_ascii_app (a b : string) :
  all_ascii (a ++ b) = all_ascii a && all_ascii b.
Proof.
  induction a as [|c a IH]; cbn; [reflexivity|]. now rewrite IH, andb_assoc.
Qed.

Lemma readable_app (a b : string) :
  readable a = true -> readable b = true -> readable (a ++ b) = true.
Proof.
  unfold readable. intros Ha Hb.
  apply andb_prop in Ha. destruct Ha as [Ha1 Ha2].
  apply andb_prop in Hb. destruct Hb as [_ Hb2].
  rewrite all_ascii_app, Ha2, Hb2.
  destruct a; [discriminate | reflexivity].
Qed.

(** One pass of the Reader's loop on a read it can take in. *)
Lemma cmd_reader_readable (data : string) (more : list (bool * Recv))
      (buffer : string) (p : Player) :
  readable data = true ->
  _cmd_reader ((false, RecvData data) :: more) buffer p
  = let (ls, rest) := split_lines (buffer ++ data) EmptyString in
    _cmd_reader more rest (fold_left reader_put ls p).
Proof.
  unfold readable. intros H. apply andb_prop in H. destruct H as [H1 H2].
  destruct data as [|c data]; [discriminate|].
  cbn [_cmd_reader]. now rewrite H2.
Qed.

(** A read the Reader cannot take in ends the task: with a [DISCONNECT]
    when it is empty, without one when it does not decode. *)
Lemma cmd_reader_unreadable (data : string) (more : list (bool * Recv))
      (buffer : string) (p : Player) :
  readable data = false ->
  _cmd_reader ((false, RecvData data) :: more) buffer p
  = (true, if String.eqb data EmptyString then cmd_put DISCONNECT p else p).
Proof.
  unfold readable. intros H.
  destruct data as [|c data]; [reflexivity|].
  cbn [_cmd_reader]. cbn [String.eqb negb andb] in H |- *. now rewrite H.
Qed.

(** X7: The Reader does not depend on how the stream is cut into [recv]
    results: two reads in a row, each with at least one byte and ASCII
    bytes only, leave the session as one read of the two pieces together
    would. *)
Theorem cmd_reader_chunking :
  forall (a b buffer : string) (more : list (bool * Recv)) (p : Player),
    readable a = true ->
    readable b = true ->
    _cmd_reader ((false, RecvData a) :: (false, RecvData b) :: more) buffer p
    = _cmd_reader ((false, RecvData (a ++ b)) :: more) buffer p.
Proof.
  intros a b buffer more p Ha Hb.
  rewrite (cmd_reader_readable (a ++ b) more buffer p (readable_app a b Ha Hb)).
  rewrite (cmd_reader_readable a _ buffer p Ha).
  rewrite <- sapp_assoc.
  rewrite (split_lines_app (buffer ++ a) b EmptyString).
  destruct (split_lines_no_nl (buffer ++ a) EmptyString eq_refl) as [Hrest _].
  destruct (split_lines (buffer ++ a) EmptyString) as [l1 r1]. cbn [fst snd] in *.
  rewrite (cmd_reader_readable b more r1 _ Hb).
  rewrite (split_lines_left_over r1 b EmptyString Hrest). cbn [append].
  destruct (split_lines b r1) as [l2 r2]. cbn [fst snd].
  now rewrite fold_left_app.
Qed.

Lemma split_lines_incomplete (b cur : string) :
  has_nl b = false -> split_lines b cur = ([], (cur ++ b)%string).
Proof.
  intros Hb. rewrite <- (sapp_nil_r b) at 1.
  now rewrite split_lines_left_over.
Qed.

Lemma cmd_reader_stream (recvs : list (bool * Recv)) :
  forall (buffer : string) (p : Player),
    has_nl buffer = false ->
    _cmd_reader recvs buffer p
    = (fst (reader_outcome recvs),
       (if snd (reader_outcome recvs) then cmd_put DISCONNECT else fun q => q)
         (fold_left reader_put
            (fst (split_lines (buffer ++ stream_of recvs) EmptyString)) p)).
Proof.
  induction recvs as [|[[|] [data| |]] more IH]; intros buffer p Hbuf;
    cbn [reader_outcome stream_of].
  1-4,6-7: cbn [_cmd_reader fst snd];
    rewrite sapp_nil_r, (split_lines_incomplete buffer EmptyString Hbuf);
    reflexivity.
  destruct (readable data) eqn:Hdata.
  - rewrite (cmd_reader_readable data more buffer p Hdata).
    rewrite <- sapp_assoc.
    rewrite (split_lines_app (buffer ++ data) (stream_of more) EmptyString).
    destruct (split_lines_no_nl (buffer ++ data) EmptyString eq_refl) as [Hrest _].
    destruct (split_lines (buffer ++ data) EmptyString) as [l1 r1]. cbn [fst snd] in *.
    rewrite (IH r1 _ Hrest).
    rewrite (split_lines_left_over r1 (stream_of more) EmptyString Hrest). cbn [append].
    now rewrite fold_left_app.
  - rewrite (cmd_reader_unreadable data more buffer p Hdata). cbn [fst snd].
    rewrite sapp_nil_r, (split_lines_incomplete buffer EmptyString Hbuf).
    cbn [fst fold_left]. now destruct (String.eqb data EmptyString).
Qed.

Lemma reader_put_fold (ls : list string) :
  forall p : Player,
    let p' := fold_left reader_put ls p in
    cmd_queue p'
    = cmd_queue p ++ map COMMAND (filter (fun t => negb (is_ack t)) (texts_of ls)) /\
    heartbeat_queue p'
    = heartbeat_queue p ++ repeat true (List.length (filter is_ack (texts_of ls))) /\
    name p' = name p /\ socket p' = socket p /\ address p' = address p /\
    number_hand p' = number_hand p /\ tool_hand p' = tool_hand p /\
    answer p' = answer p /\ guess_histories p' = guess_histories p.
Proof.
  induction ls as [|l ls IH]; intros p; cbn [fold_left texts_of map filter].
  - cbn. rewrite !app_nil_r. repeat split.
  - destruct (IH (reader_put p l)) as (Hc & Hh & Hn & Hs & Ha & Hnh & Hth & Han & Hg).
    cbn zeta. fold (texts_of ls).
    rewrite Hc, Hh, Hn, Hs, Ha, Hnh, Hth, Han, Hg.
    unfold reader_put, is_ack.
    destruct (String.eqb (strip l) "HEARTBEAT_ACK"); cbn;
      rewrite <- ?app_assoc; repeat split.
Qed.

(** X8: What a Reader leaves on the two queues of its session.  The
    stream is what the reads hand in up to the first read that fails,
    comes back empty or holds a byte that is not ASCII.  The stripped
    text of every complete line of the stream goes on the command queue,
    in order -- except the lines reading [HEARTBEAT_ACK], which count as
    one token each on the heartbeat queue -- and, last on the command
    queue, one [DISCONNECT] if and only if the loop ended on a failed or
    empty read.  Nothing else of the session changes. *)
Theorem cmd_reader_routing :
  forall (recvs : list (bool * Recv)) (p : Player),
    let p' := snd (_cmd_reader recvs EmptyString p) in
    let texts := texts_of (fst (split_lines (stream_of recvs) EmptyString)) in
    fst (_cmd_reader recvs EmptyString p) = fst (reader_outcome recvs) /\
    cmd_queue p'
    = cmd_queue p ++ map COMMAND (filter (fun t => negb (is_ack t)) texts)
      ++ (if snd (reader_outcome recvs) then [DISCONNECT] else []) /\
    heartbeat_queue p'
    = heartbeat_queue p ++ repeat true (List.length (filter is_ack texts)) /\
    name p' = name p /\ socket p' = socket p /\
    number_hand p' = number_hand p /\ tool_hand p' = tool_hand p /\
    answer p' = answer p /\ guess_histories p' = guess_histories p.
Proof.
  intros recvs p. cbn zeta.
  rewrite (cmd_reader_stream recvs EmptyString p eq_refl). cbn [fst snd append].
  destruct (reader_put_fold (fst (split_lines (stream_of recvs) EmptyString)) p)
    as (Hc & Hh & Hn & Hs & _ & Hnh & Hth & Han & Hg).
  cbn zeta in *.
  destruct (snd (reader_outcome recvs)); cbn [cmd_put set_cmd_queue cmd_queue
    heartbeat_queue name socket number_hand tool_hand answer guess_histories].
  - rewrite Hc, <- app_assoc. repeat split; assumption.
  - rewrite app_nil_r. repeat split; assumption.
Qed.

(* ================================================================== *)
(** * More on the Heartbeat and on disconnects *)
(* ================================================================== *)

(** X9: A Heartbeat task puts at most one [DISCONNECT] on the command queue,
    and only as it leaves its loop on a caught timeout; whenever it leaves
    its loop, its last socket call is the [close] of line 161; when the
    timeout is not caught the task is gone without that [close].  It
    never touches the roster, the start latch, or the session's hands. *)
Theorem heartbeat_at_most_one_disconnect :
  forall (timeout_caught : bool) (ticks : list Tick) (p : Player) (w : Server),
    let st := fst (fst (_heartbeat timeout_caught ticks p w)) in
    let p' := snd (fst (_heartbeat timeout_caught ticks p w)) in
    let w' := snd (_heartbeat timeout_caught ticks p w) in
    (cmd_queue p' = cmd_queue p \/
     (cmd_queue p' = cmd_queue p ++ [DISCONNECT] /\ st = HbDone /\ timeout_caught = true)) /\
    (st = HbDone -> exists l, wire w' = l ++ [Close (socket p)]) /\
    (st = HbKilled -> timeout_caught = false) /\
    players w' = players w /\ start_event w' = start_event w /\
    socket p' = socket p /\ number_hand p' = number_hand p /\
    tool_hand p' = tool_hand p /\ answer p' = answer p.
Proof.
  intros c ticks. induction ticks as [|tk more IH]; intros p w; cbn [_heartbeat].
  - cbn. repeat split; auto; discriminate.
  - set (w0 := if end_set_meanwhile tk then set_end_event true w else w).
    assert (Hw0 : players w0 = players w /\ start_event w0 = start_event w)
      by (subst w0; destruct (end_set_meanwhile tk); split; reflexivity).
    destruct Hw0 as [Hp0 Hs0].
    destruct (end_event w0).
    + cbn [fst snd]. repeat split; auto; try discriminate.
      intros _. eexists. reflexivity.
    + destruct (heartbeat_queue p) as [|tok rest] eqn:Hq.
      * destruct (ack_in_time tk).
        -- specialize (IH p (send_to p ("HEARTBEAT" ++ nl) w0)).
           cbn zeta in IH. cbn [players start_event send_to set_wire] in IH.
           now rewrite Hp0, Hs0 in IH.
        -- destruct c; cbn [fst snd].
           ++ repeat split; auto; try discriminate.
              intros _. eexists. reflexivity.
           ++ repeat split; auto; discriminate.
      * specialize (IH (set_heartbeat_queue rest p) (send_to p ("HEARTBEAT" ++ nl) w0)).
        cbn zeta in IH.
        cbn [players start_event send_to set_wire set_heartbeat_queue cmd_queue socket
             number_hand tool_hand answer] in IH.
        now rewrite Hp0, Hs0 in IH.
Qed.

(** X10: A client that is there and acknowledges in time is never reported:
    as long as nobody sets the end latch, each pass sends one [HEARTBEAT]
    line, the task stays in its loop and the command queue is left
    alone. *)
Theorem heartbeat_of_live_session :
  forall (timeout_caught : bool) (ticks : list Tick) (p : Player) (w : Server),
    end_event w = false ->
    Forall (fun tk => end_set_meanwhile tk = false /\ ack_in_time tk = true) ticks ->
    let r := _heartbeat timeout_caught ticks p w in
    fst (fst r) = HbAlive /\
    cmd_queue (snd (fst r)) = cmd_queue p /\
    heartbeat_queue (snd (fst r)) = skipn (List.length ticks) (heartbeat_queue p) /\
    sent (wire (snd r))
    = sent (wire w) ++ repeat (socket p, ("HEARTBEAT" ++ nl)%string) (List.length ticks) /\
    end_event (snd r) = false.
Proof.
  intros c ticks. induction ticks as [|tk more IH]; intros p w Hend Hticks; cbn [_heartbeat].
  - cbn. rewrite app_nil_r. auto.
  - inversion Hticks as [|? ? [He Ha] Hmore]; subst.
    rewrite He, Hend.
    destruct (heartbeat_queue p) as [|tok rest] eqn:Hq.
    + rewrite Ha.
      destruct (IH p (send_to p ("HEARTBEAT" ++ nl) w) Hend Hmore) as (H1 & H2 & H3 & H4 & H5).
      cbn zeta. rewrite H1, H2, H3, H4, H5, Hq, sent_send_to, <- app_assoc.
      cbn [List.length repeat app skipn]. rewrite skipn_nil. auto.
    + destruct (IH (set_heartbeat_queue rest p) (send_to p ("HEARTBEAT" ++ nl) w) Hend Hmore)
        as (H1 & H2 & H3 & H4 & H5).
      cbn zeta. rewrite H1, H2, H3, H4, H5, sent_send_to, <- app_assoc.
      cbn [List.length repeat app skipn set_heartbeat_queue heartbeat_queue cmd_queue socket].
      auto.
Qed.

(** X11: Once the end latch is set -- by [shutdown], say -- the next loop test
    of a Heartbeat task ends it: nothing is sent, nothing is queued, the
    socket is closed. *)
Theorem heartbeat_after_shutdown :
  forall (timeout_caught : bool) (tk : Tick) (more : list Tick) (p : Player) (w : Server),
    _heartbeat timeout_caught (tk :: more) p (shutdown w)
    = (HbDone, p, log (Close (socket p)) (shutdown w)) /\
    shutdown (shutdown w) = shutdown w /\
    players (shutdown w) = players w /\ wire (shutdown w) = wire w.
Proof.
  intros c tk more p w. cbn [_heartbeat].
  destruct (end_set_meanwhile tk); repeat split; reflexivity.
Qed.

(** X12: [ConnectionManager.handle_disconnect] on a roster of two: the player
    handed in leaves the roster, the other one is sent [WINNER] with its
    own name, and the end latch is set. *)
Theorem handle_disconnect_of_two :
  forall (a b : Player) (w : Server),
    players w = [a; b] ->
    socket a <> socket b ->
    (players (handle_disconnect a w) = [b] /\
     end_event (handle_disconnect a w) = true /\
     sent (wire (handle_disconnect a w))
     = sent (wire w) ++ [(socket b, ("WINNER " ++ name b ++ nl)%string)]) /\
    (players (handle_disconnect b w) = [a] /\
     end_event (handle_disconnect b w) = true /\
     sent (wire (handle_disconnect b w))
     = sent (wire w) ++ [(socket a, ("WINNER " ++ name a ++ nl)%string)]).
Proof.
  intros a b w Hps Hne. unfold handle_disconnect.
  cbn [players set_players]. rewrite Hps. cbn [remove_player]. unfold same_player.
  rewrite Nat.eqb_refl.
  destruct (Nat.eqb_spec (socket a) (socket b)) as [He|_]; [contradiction|].
  rewrite Nat.eqb_refl.
  cbn [players set_end_event send_to set_wire end_event wire].
  rewrite !sent_app. cbn [sent set_players wire].
  split; repeat split;
    match goal with |- context [if ?c then _ else _] => destruct c end;
    cbn [sent]; reflexivity.
Qed.

(** X13: [handle_disconnect] on a roster of one.  For a player that is not on
    the roster (a second call for the same disconnect, say) the one
    player left is declared winner again.  For the one player itself the
    roster becomes empty and nothing else happens: no message, and the
    end latch stays as it was. *)
Theorem handle_disconnect_of_one :
  forall (lone current : Player) (w : Server),
    players w = [lone] ->
    if same_player lone current
    then players (handle_disconnect current w) = [] /\
         end_event (handle_disconnect current w) = end_event w /\
         wire (handle_disconnect current w) = wire w
    else players (handle_disconnect current w) = [lone] /\
         end_event (handle_disconnect current w) = true /\
         sent (wire (handle_disconnect current w))
         = sent (wire w) ++ [(socket lone, ("WINNER " ++ name lone ++ nl)%string)].
Proof.
  intros lone current w Hps. unfold handle_disconnect.
  cbn [players set_players]. rewrite Hps. cbn [remove_player].
  destruct (same_player lone current).
  - repeat split.
  - cbn [players set_end_event send_to set_wire end_event wire].
    rewrite sent_app. cbn [sent set_players wire].
    repeat split.
    match goal with |- context [if ?c then _ else _] => destruct c end;
      cbn [sent]; reflexivity.
Qed.

Lemma send_unless_spec (skip : option (list Player)) (msg : string) (ps : list Player) :
  forall t : Table,
    exists t',
      send_unless skip ps msg t = Next tt t' /\
      players (cm t') = players (cm t) /\
      start_event (cm t') = start_event (cm t) /\
      end_event (cm t') = end_event (cm t) /\
      game t' = game t /\
      sent (wire (cm t'))
      = sent (wire (cm t))
        ++ map (fun p => (socket p, msg)) (filter (fun p => negb (skipped skip p)) ps).
Proof.
  induction ps as [|p ps IH]; intros t; cbn [send_unless filter].
  - exists t. cbn [ret map]. rewrite app_nil_r. repeat split.
  - destruct (skipped skip p); cbn [negb]; mred.
    + apply IH.
    + destruct (IH (mkTable (send_to p msg (cm t)) (game t)))
        as (t' & Hrun & Hp & Hs & He & Hg & Hsent).
      exists t'. split; [exact Hrun|]. cbn [cm game] in *.
      rewrite Hp, Hs, He, Hg, Hsent, sent_send_to. repeat split.
      cbn [map]. now rewrite <- app_assoc.
Qed.

Lemma send_unless_none (msg : string) (ps : list Player) (t : Table) :
  send_unless None ps msg t = send_each ps msg t.
Proof.
  revert t. induction ps as [|p ps IH]; intros t; cbn [send_unless send_each skipped];
    [reflexivity|].
  mred. apply IH.
Qed.

(** X14: [broadcast] sends the message to the players of the roster that are
    not in [skip_players], in roster order, and to nobody else; it never
    takes anybody off the roster.  Without [skip_players] it is the
    broadcast of the winning path. *)
Theorem broadcast_skips_and_keeps_roster :
  forall (msg : string) (skip_players : option (list Player)) (t : Table),
    (exists t',
        broadcast_skip msg skip_players t = Next tt t' /\
        players (cm t') = players (cm t) /\
        game t' = game t /\
        sent (wire (cm t'))
        = sent (wire (cm t))
          ++ map (fun p => (socket p, msg))
                 (filter (fun p => negb (skipped skip_players p)) (players (cm t)))) /\
    broadcast_skip msg None t = broadcast msg t.
Proof.
  intros msg skip t. split.
  - unfold broadcast_skip. mred.
    destruct (send_unless_spec skip msg (players (cm t)) t)
      as (t' & Hrun & Hp & _ & _ & Hg & Hsent).
    exists t'. auto.
  - unfold broadcast_skip, broadcast. mred. apply send_unless_none.
Qed.

Lemma wire_reset_turn (w : Server) :
  wire (reset_turn_server w) = wire w ++ map (fun p => Close (socket p)) (players w).
Proof.
  unfold reset_turn_server. cbn [wire set_start_event set_players].
  generalize (players w). intros ps. revert w.
  induction ps as [|q ps IH]; intros w; cbn [fold_left map].
  - now rewrite app_nil_r.
  - rewrite IH. unfold log. cbn [wire set_wire]. now rewrite <- app_assoc.
Qed.

(** X15: [reset_turn] calls [close] once on each socket of the roster, in
    roster order, and makes no other socket call; it empties the roster
    and clears the start latch, leaves the end latch and the spawned
    tasks as they are, and a second call changes nothing more. *)
Theorem reset_turn_closes_each_once :
  forall w : Server,
    wire (reset_turn_server w) = wire w ++ map (fun p => Close (socket p)) (players w) /\
    closed (wire (reset_turn_server w)) = closed (wire w) ++ map socket (players w) /\
    sent (wire (reset_turn_server w)) = sent (wire w) /\
    players (reset_turn_server w) = [] /\
    start_event (reset_turn_server w) = false /\
    end_event (reset_turn_server w) = end_event w /\
    spawned (reset_turn_server w) = spawned w /\
    reset_turn_server (reset_turn_server w) = reset_turn_server w.
Proof.
  intros w. split; [apply wire_reset_turn|].
  split.
  { rewrite wire_reset_turn, closed_app. f_equal.
    induction (players w) as [|q ps IH]; cbn [map closed]; [reflexivity | now rewrite IH]. }
  split; [apply sent_reset_turn|].
  assert (Hother : forall ps w0,
             let w1 := fold_left (fun w' p => log (Close (socket p)) w') ps w0 in
             end_event w1 = end_event w0 /\ spawned w1 = spawned w0 /\
             broken w1 = broken w0).
  { induction ps as [|q ps IH]; intros w0; cbn [fold_left]; [auto|].
    destruct (IH (log (Close (socket q)) w0)) as (H1 & H2 & H3). auto. }
  destruct (Hother (players w) w) as (He & Hs & Hb).
  unfold reset_turn_server. cbn. auto.
Qed.

(* ================================================================== *)
(** * What the engine leaves alone *)
(* ================================================================== *)

Create HintDb keeps.

Section Frame.

Context {HB : Hub}.
Variable I : Table -> Prop.
Variable Q : Exit -> Table -> Prop.
Variable ok : nat -> Prop.

Hypothesis I_send : forall p msg t, I t -> I (on_cm (send_to p msg) t).
Hypothesis I_update :
  forall i f t, ok i -> (forall p, ident (f p) = ident p) -> I t ->
                I (on_cm (fun w => set_players (update_nth i f (players w)) w) t).
Hypothesis I_game : forall f t, I t -> I (on_game f t).
Hypothesis Q_blocked : forall line t, I t -> Q (Blocked line) t.
Hypothesis Q_raised : forall e line t, I t -> Q (Raised e line) t.
Hypothesis Q_lone : forall t, I t -> Q (Returned 253) (on_cm (set_end_event true) t).
Hypothesis Q_win : forall t, I t -> Q (Returned 411) (on_cm reset_turn_server t).
Hypothesis Q_abort :
  forall current line t, In line [316; 337; 388]%nat -> I t ->
    Q (Returned line)
      (on_cm (set_end_event true)
         (on_cm (fun w => set_players (remove_player current (players w)) w) t)).

Lemma keeps_bind {A B : Type} (m : M A) (k : A -> M B) :
  keeps I Q m -> (forall a, keeps I Q (k a)) -> keeps I Q (bind m k).
Proof.
  intros Hm Hk t Ht. unfold bind. specialize (Hm t Ht).
  destruct (m t) as [a t1|x t1]; [apply Hk, Hm | exact Hm].
Qed.

Lemma keeps_ret {A : Type} (a : A) : keeps I Q (ret a).
Proof. intros t Ht. exact Ht. Qed.

Lemma keeps_if {A : Type} (c : bool) (m1 m2 : M A) :
  keeps I Q m1 -> keeps I Q m2 -> keeps I Q (if c then m1 else m2).
Proof. now destruct c. Qed.

Lemma keeps_roster : keeps I Q roster.
Proof. intros t Ht. exact Ht. Qed.

Lemma keeps_the_game : keeps I Q the_game.
Proof. intros t Ht. exact Ht. Qed.

Lemma keeps_send p msg : keeps I Q (send p msg).
Proof. intros t Ht. now apply I_send. Qed.

Lemma keeps_update_player i f :
  ok i -> (forall p, ident (f p) = ident p) -> keeps I Q (update_player i f).
Proof. intros Hi Hf t Ht. now apply I_update. Qed.

Lemma keeps_on_game f : keeps I Q (modify (on_game f)).
Proof. intros t Ht. now apply I_game. Qed.

Lemma keeps_player_at i line : keeps I Q (player_at i line).
Proof.
  intros t Ht. unfold player_at.
  destruct (nth_error (players (cm t)) i); [exact Ht | now apply Q_raised].
Qed.

Lemma keeps_msg_data msg line : keeps I Q (msg_data msg line).
Proof.
  unfold msg_data. destruct (ev_data msg); [apply keeps_ret|].
  intros t Ht. now apply Q_raised.
Qed.

Lemma keeps_raise {A : Type} e line : keeps I Q (@stop A (Raised e line)).
Proof. intros t Ht. now apply Q_raised. Qed.

Lemma keeps_block {A : Type} line : keeps I Q (@stop A (Blocked line)).
Proof. intros t Ht. now apply Q_blocked. Qed.

Lemma keeps_abort_for_opponent {A : Type} current opponent line :
  In line [316; 337; 388]%nat ->
  keeps I Q (@abort_for_opponent A current opponent line).
Proof.
  intros Hline t Ht. unfold abort_for_opponent, bind, send, modify, stop.
  apply Q_abort; [exact Hline|]. now apply I_send.
Qed.

Lemma keeps_Queue_get {A : Type} q (item : Event -> list Event -> M A)
      (wait handler : M A) :
  keeps I Q wait -> keeps I Q handler ->
  (forall msg rest, keeps I Q (item msg rest)) ->
  keeps I Q (Queue_get q item wait handler).
Proof.
  intros Hwait Hhandler Hitem. destruct q as [|msg rest]; cbn [Queue_get].
  - now destruct nothing_left_to_run.
  - apply Hitem.
Qed.

Lemma keeps_cmd_queue_get {A : Type} i line (item : Event -> M A) (handler : M A) :
  ok i -> keeps I Q handler -> (forall msg, keeps I Q (item msg)) ->
  keeps I Q (cmd_queue_get i line item handler).
Proof.
  intros Hi Hhandler Hitem. unfold cmd_queue_get.
  apply keeps_bind; [apply keeps_player_at|].
  intros current. apply keeps_Queue_get.
  - intros t Ht. now apply Q_blocked.
  - exact Hhandler.
  - intros msg rest.
    apply keeps_bind; [now apply keeps_update_player | intros _; apply Hitem].
Qed.

Lemma keeps_send_each ps msg : keeps I Q (send_each ps msg).
Proof.
  induction ps as [|p ps IH]; cbn [send_each]; [apply keeps_ret|].
  apply keeps_bind; [apply keeps_send | intros _; exact IH].
Qed.

Lemma keeps_send_hands ps : keeps I Q (send_hands ps).
Proof.
  induction ps as [|p ps IH]; cbn [send_hands]; [apply keeps_ret|].
  apply keeps_bind; [apply keeps_send | intros _; exact IH].
Qed.

Lemma keeps_send_status ps current : keeps I Q (send_status ps current).
Proof.
  induction ps as [|p ps IH]; cbn [send_status]; [apply keeps_ret|].
  apply keeps_bind; [|intros _; exact IH].
  apply keeps_if; [apply keeps_ret | apply keeps_send].
Qed.

Lemma keeps_lone_return :
  keeps I Q (modify (on_cm (set_end_event true)) ;; @stop unit (Returned 253)).
Proof. intros t Ht. now apply Q_lone. Qed.

Lemma keeps_win_return :
  keeps I Q (reset_turn ;; @stop unit (Returned 411)).
Proof. intros t Ht. now apply Q_win. Qed.

Hint Resolve keeps_ret keeps_roster keeps_the_game keeps_send keeps_on_game
  keeps_player_at keeps_msg_data keeps_raise keeps_block keeps_send_each keeps_send_hands
  keeps_send_status keeps_lone_return keeps_win_return : keeps.
Hint Extern 1 (keeps _ _ (abort_for_opponent _ _ _)) =>
  apply keeps_abort_for_opponent; cbn; tauto : keeps.
Hint Extern 1 (keeps _ _ (self_handle_disconnect _)) =>
  apply keeps_raise : keeps.

Ltac keeps_walk :=
  repeat first
    [ rewrite ev_type_never_DISCONNECTED
    | solve [auto with keeps]
    | apply keeps_cmd_queue_get; [assumption | | intros ?]
    | apply keeps_update_player; [assumption | reflexivity]
    | apply keeps_bind; [|intros ?]
    | apply keeps_if
    | match goal with
      | |- keeps _ _ (match ?x with Some _ => _ | None => _ end) => destruct x
      | |- keeps _ _ (let (_, _) := ?x in _) => destruct x
      | |- keeps _ _ (match ?x with (_, _) => _ end) => destruct x
      end ].

Lemma keeps_pos_reprompt q : forall i current opponent pos_str,
  ok i -> keeps I Q (pos_reprompt q i current opponent pos_str).
Proof.
  induction q as [|msg rest IH]; intros i current opponent pos_str Hi;
    rewrite pos_reprompt_eq; cbn [Queue_get];
    [destruct nothing_left_to_run|]; keeps_walk.
Qed.

Hint Resolve keeps_pos_reprompt : keeps.

Lemma keeps_pos_tool i oidx current opponent :
  ok i -> keeps I Q (pos_tool i oidx current opponent).
Proof. intros Hi. unfold pos_tool. keeps_walk. Qed.

Hint Resolve keeps_pos_tool : keeps.

Context {GM : GameModel}.

Lemma keeps_tool_effect i oidx current opponent tool :
  ok i -> keeps I Q (tool_effect i oidx current opponent tool).
Proof. intros Hi. unfold tool_effect. keeps_walk. Qed.

Hint Resolve keeps_tool_effect : keeps.

Lemma keeps_tool_action i oidx current opponent msg :
  ok i -> keeps I Q (tool_action i oidx current opponent msg).
Proof. intros Hi. unfold tool_action. keeps_walk. Qed.

Lemma keeps_discard_guess i ds : ok i -> keeps I Q (discard_guess i ds).
Proof.
  intros Hi. induction ds as [|d more IH]; cbn [discard_guess]; keeps_walk.
Qed.

Lemma keeps_do_draw_up i : ok i -> keeps I Q (do_draw_up i).
Proof. intros Hi. unfold do_draw_up. keeps_walk. Qed.

Hint Resolve keeps_tool_action keeps_discard_guess keeps_do_draw_up : keeps.

Lemma keeps_guess_once i oidx current opponent :
  ok i -> keeps I Q (guess_once i oidx current opponent).
Proof. intros Hi. unfold guess_once, broadcast. keeps_walk. Qed.

Hint Resolve keeps_guess_once : keeps.

Lemma keeps_guess_loop n i oidx current opponent :
  ok i -> keeps I Q (guess_loop n i oidx current opponent).
Proof. intros Hi. induction n as [|n IH]; cbn [guess_loop]; keeps_walk. Qed.

Hint Resolve keeps_guess_loop : keeps.

Lemma keeps_turn i : ok i -> keeps I Q (turn i).
Proof. intros Hi. unfold turn. keeps_walk. Qed.

Hint Resolve keeps_turn : keeps.

Lemma keeps_for_turns idxs : Forall ok idxs -> keeps I Q (for_turns idxs).
Proof.
  induction idxs as [|i more IH]; intros Hok; cbn [for_turns];
    [|inversion Hok; subst]; keeps_walk.
Qed.

Lemma keeps_round_loop n : ok 0%nat -> ok 1%nat -> keeps I Q (round_loop n).
Proof.
  intros H0 H1. induction n as [|n IH]; cbn [round_loop]; keeps_walk.
Qed.

(** A turn from its second socket call on: what holds once the acting
    player has been sent the hand of line 268 is kept by the rest of the
    turn. *)
Lemma keeps_turn_after_hand i current opponent t :
  ok i ->
  nth_error (players (cm t)) i = Some current ->
  nth_error (players (cm t)) ((i + 1) mod List.length (players (cm t))) = Some opponent ->
  I (on_cm (send_to current (hand_msg current)) t) ->
  match turn i t with
  | Next _ t' => I t'
  | Stop x t' => Q x t'
  end.
Proof.
  intros Hi Hcur Hopp. unfold turn. mred.
  rewrite (bind_player_at _ _ _ _ _ Hcur).
  rewrite (bind_player_at _ _ _ _ _ Hopp). mred.
  match goal with |- _ -> match ?m ?t1 with _ => _ end =>
    generalize t1; change (keeps I Q m)
  end.
  keeps_walk.
Qed.

End Frame.

Lemma reset_turn_frame (w : Server) :
  end_event (reset_turn_server w) = end_event w /\
  spawned (reset_turn_server w) = spawned w /\
  broken (reset_turn_server w) = broken w.
Proof.
  assert (Hother : forall ps w0,
             let w1 := fold_left (fun w' p => log (Close (socket p)) w') ps w0 in
             end_event w1 = end_event w0 /\ spawned w1 = spawned w0 /\
             broken w1 = broken w0).
  { induction ps as [|q ps IH]; intros w0; cbn [fold_left]; [auto|].
    destruct (IH (log (Close (socket q)) w0)) as (H1 & H2 & H3). auto. }
  destruct (Hother (players w) w) as (He & Hs & Hb).
  unfold reset_turn_server. cbn. auto.
Qed.

Lemma map_ident_update i f l :
  (forall p, ident (f p) = ident p) ->
  map ident (update_nth i f l) = map ident l.
Proof.
  intros Hf. revert i; induction l as [|x l IH]; intros [|i]; cbn; try reflexivity.
  - now rewrite Hf.
  - now rewrite IH.
Qed.

Section EngineFrame.

Context {GM : GameModel} {HB : Hub}.

(** What [play] does to a table when it runs to its end. *)
Lemma play_to_the_end (I : Table -> Prop) (Q : Exit -> Table -> Prop) :
  keeps I Q deal_hands ->
  (forall n, keeps I Q (round_loop n)) ->
  (forall ps msg, keeps I Q (send_each ps msg)) ->
  forall t, I t ->
    match play t with
    | Next _ t' => exists t1, I t1 /\ t' = on_cm reset_turn_server t1
    | Stop x t' => Q x t'
    end.
Proof.
  intros Hdeal Hround Hsend t Ht. unfold play, bind.
  specialize (Hdeal t Ht). destruct (deal_hands t) as [[] t1|x t1]; [|exact Hdeal].
  cbn [the_game].
  specialize (Hround (MAX_ROUNDS (game t1)) t1 Hdeal).
  destruct (round_loop (MAX_ROUNDS (game t1)) t1) as [[] t2|x t2]; [|exact Hround].
  cbn [roster].
  specialize (Hsend (players (cm t2)) ("DRAW" ++ nl)%string t2 Hround).
  destruct (send_each (players (cm t2)) ("DRAW" ++ nl) t2) as [[] t3|x t3]; [|exact Hsend].
  exists t3. split; [exact Hsend | reflexivity].
Qed.

(** X16: The end latch: [run_game] sets it when it declares a lone
    player winner (line 253) and in the handlers that a [LoopExit] at a
    queue read runs (lines 316, 337, 388), and at no other exit: a win
    (line 411), a draw (line 418), a wait and an exception leave it as it
    was. *)
Theorem run_game_end_latch :
  forall w : Server,
    (In (fst (run_game w)) [Returned 253; Returned 316; Returned 337; Returned 388] ->
     end_event (snd (run_game w)) = true) /\
    (~ In (fst (run_game w)) [Returned 253; Returned 316; Returned 337; Returned 388] ->
     end_event (snd (run_game w)) = end_event w).
Proof.
  intros w.
  set (setters := [Returned 253; Returned 316; Returned 337; Returned 388]).
  unfold run_game.
  destruct (start_event w).
  2:{ cbn [fst snd]. split; [|reflexivity].
      destruct nothing_left_to_run; cbn; intros H; repeat destruct H as [H|H];
        try discriminate; contradiction. }
  destruct (Game_new (players w)) as [g ps].
  set (I := fun t : Table => end_event (cm t) = end_event w).
  set (Q := fun (x : Exit) (t : Table) =>
              (In x setters /\ end_event (cm t) = true) \/
              (~ In x setters /\ end_event (cm t) = end_event w)).
  assert (Hout : forall x, (forall line, x <> Returned line) -> ~ In x setters).
  { intros x Hx Hin. cbn in Hin.
    repeat destruct Hin as [Hin|Hin]; try contradiction;
      symmetry in Hin; exact (Hx _ Hin). }
  assert (Hplay :
    match play (mkTable (set_players ps w) g) with
    | Next _ t' => exists t1, I t1 /\ t' = on_cm reset_turn_server t1
    | Stop x t' => Q x t'
    end).
  { apply play_to_the_end.
    - unfold deal_hands. apply keeps_bind; [apply keeps_roster|].
      intros l. apply keeps_send_hands. intros; exact H.
    - intros n. apply (keeps_round_loop I Q (fun _ => True)); try exact Logic.I.
      + intros; assumption.
      + intros; assumption.
      + intros; assumption.
      + intros line t Ht. right. split; [apply Hout; discriminate | exact Ht].
      + intros e line t Ht. right. split; [apply Hout; discriminate | exact Ht].
      + intros t Ht. left. split; [now left | reflexivity].
      + intros t Ht. right. split.
        * cbn. intros H. repeat destruct H as [H|H]; try discriminate; contradiction.
        * cbn [cm on_cm]. rewrite (proj1 (reset_turn_frame (cm t))). exact Ht.
      + intros current line t Hline Ht. left. split; [|reflexivity].
        cbn in Hline. cbn. intuition (subst; auto).
    - intros l msg. apply keeps_send_each. intros; assumption.
    - reflexivity. }
  destruct (play (mkTable (set_players ps w) g)) as [[] t|x t]; cbn [fst snd].
  - destruct Hplay as (t1 & Ht1 & ->). split.
    + cbn. intros H. repeat destruct H as [H|H]; try discriminate; contradiction.
    + intros _. cbn [cm on_cm]. rewrite (proj1 (reset_turn_frame (cm t1))). exact Ht1.
  - destruct Hplay as [[Hx He]|[Hx He]].
    + split; [intros _; exact He | intros H; contradiction].
    + split; [intros H; contradiction | intros _; exact He].
Qed.

(** X17: While a game runs the engine leaves the sessions alone: unless
    the call ends by a win (line 411), a draw (line 418) or a handler
    that a [LoopExit] runs (lines 316, 337, 388), the roster comes out of
    [run_game] with the sessions [Game] was given back, in the same
    order, with their names, sockets, addresses, heartbeat queues and
    histories untouched, the start latch still set and no task spawned.
    In particular [run_game]'s own code records no history:
    [save_player_record], which has no call site, would show. *)
Theorem run_game_keeps_sessions :
  forall w : Server,
    start_event w = true ->
    ~ In (fst (run_game w))
         [Returned 316; Returned 337; Returned 388; Returned 411; Returned 418] ->
    map ident (players (snd (run_game w))) = map ident (snd (Game_new (players w))) /\
    start_event (snd (run_game w)) = true /\
    spawned (snd (run_game w)) = spawned w /\
    broken (snd (run_game w)) = broken w /\
    forall p action, ident (save_player_record p action) <> ident p.
Proof.
  intros w Hstart. unfold run_game. rewrite Hstart.
  destruct (Game_new (players w)) as [g ps]. cbn [snd].
  set (I := fun t : Table =>
              map ident (players (cm t)) = map ident ps /\
              start_event (cm t) = true /\
              spawned (cm t) = spawned w /\ broken (cm t) = broken w).
  set (Q := fun (x : Exit) (t : Table) =>
              In x [Returned 316; Returned 337; Returned 388; Returned 411] \/ I t).
  assert (Hplay :
    match play (mkTable (set_players ps w) g) with
    | Next _ t' => exists t1, I t1 /\ t' = on_cm reset_turn_server t1
    | Stop x t' => Q x t'
    end).
  { apply play_to_the_end.
    - unfold deal_hands. apply keeps_bind; [apply keeps_roster|].
      intros l. apply keeps_send_hands. intros; assumption.
    - intros n. apply (keeps_round_loop I Q (fun _ => True)); try exact Logic.I.
      + intros; assumption.
      + intros i f t _ Hf (H1 & H2 & H3 & H4). subst I. cbn.
        rewrite map_ident_update by exact Hf. auto.
      + intros; assumption.
      + intros line t Ht. now right.
      + intros e line t Ht. now right.
      + intros t Ht. now right.
      + intros t Ht. left. cbn. tauto.
      + intros current line t Hline Ht. left. cbn in Hline. cbn.
        intuition (subst; auto).
    - intros l msg. apply keeps_send_each. intros; assumption.
    - subst I. cbn. auto. }
  destruct (play (mkTable (set_players ps w) g)) as [[] t|x t]; cbn [fst snd].
  - intros H. exfalso. apply H. cbn. tauto.
  - intros H. destruct Hplay as [Hx|(H1 & H2 & H3 & H4)].
    + exfalso. apply H. cbn in Hx |- *. tauto.
    + repeat split; trivial.
      intros p action Heq. unfold ident, save_player_record in Heq. cbn in Heq.
      injection Heq as Heq. apply (f_equal (@List.length string)) in Heq.
      rewrite length_app in Heq. cbn in Heq. lia.
Qed.

(** X18: During a player's turn the engine changes nobody else: whether the
    turn runs to its end, waits for ever or raises, every other slot of
    the roster holds the record it held before -- hands, hidden answer
    and both queues.  ([ToolCard.exclude] and [ToolCard.pos] are handed
    the opponent's answer; like every collaborator of [package.game]
    they are functions of their arguments here.) *)
Theorem turn_leaves_the_others_alone :
  forall (idx j : nat) (t : Table),
    j <> idx ->
    match turn idx t with
    | Next _ t' => nth_error (players (cm t')) j = nth_error (players (cm t)) j
    | Stop x t' =>
        (exists line, x = Returned line) \/
        nth_error (players (cm t')) j = nth_error (players (cm t)) j
    end.
Proof.
  intros idx j t Hj.
  set (I := fun t' : Table => nth_error (players (cm t')) j = nth_error (players (cm t)) j).
  set (Q := fun (x : Exit) (t' : Table) => (exists line, x = Returned line) \/ I t').
  apply (keeps_turn I Q (fun i => i <> j)); try (intros; assumption).
  - intros i f t' Hi _ Ht'. subst I. cbn.
    rewrite nth_error_update_neq by exact Hi. exact Ht'.
  - intros line t' Ht'. now right.
  - intros e line t' Ht'. now right.
  - intros t' _. left. now exists 411%nat.
  - intros current line t' _ _. left. now exists line.
  - congruence.
  - reflexivity.
Qed.

End EngineFrame.

(* ================================================================== *)
(** * More on a turn *)
(* ================================================================== *)

Section RoundFacts.

Context {GM : GameModel} {HB : Hub}.

(** X19: With two players or more on the roster both of them get their turn
    in a round, slot 0 first: the bound check of line 258 never cuts the
    round short, and the round is followed by the rounds that are left. *)
Theorem round_gives_both_a_turn :
  forall (n : nat) (t : Table),
    (2 <= List.length (players (cm t)))%nat ->
    round_loop (S n) t = (turn 0 ;; turn 1 ;; round_loop n) t.
Proof.
  intros n t Hlen. cbn [round_loop for_turns]. mred.
  destruct (Nat.eqb_spec (List.length (players (cm t))) 1) as [H1|_]; [lia|].
  rewrite bind_bind. mred.
  destruct (Nat.leb_spec (List.length (players (cm t))) 0) as [H0|_]; [lia|].
  rewrite bind_bind.
  set (I := fun t' : Table =>
              List.length (players (cm t')) = List.length (players (cm t))).
  set (Q := fun (x : Exit) (t' : Table) => True).
  assert (Hturn : keeps I Q (turn 0)).
  { apply (keeps_turn I Q (fun _ => True)); try exact Logic.I;
      try (intros; exact Logic.I); try (intros; assumption).
    intros i f t' _ Hf Ht'. subst I. cbn.
    rewrite <- Ht', <- !(length_map ident). f_equal. now apply map_ident_update. }
  specialize (Hturn t eq_refl).
  destruct (turn 0 t) as [[] t1|x t1] eqn:Ht0.
  2: now rewrite !(bind_Stop _ _ _ _ _ Ht0).
  rewrite !(bind_Next _ _ _ _ _ Ht0). rewrite bind_bind. mred.
  destruct (Nat.leb_spec (List.length (players (cm t1))) 1) as [H1|_];
    [subst I; cbn in Hturn; lia|].
  rewrite bind_bind.
  destruct (turn 1 t1) as [[] t2|x t2] eqn:Ht1.
  2: now rewrite !(bind_Stop _ _ _ _ _ Ht1).
  rewrite !(bind_Next _ _ _ _ _ Ht1). reflexivity.
Qed.

End RoundFacts.

Section GuessFacts.

Context {GM : GameModel} {HB : Hub}.

(** X21: A guess that is not a full hit: the guessed digits leave the hand for
    the number discard pile, the hand is refilled by [draw_up], the
    acting player is sent [RESULT] and the opponent [OPP_GUESS] with the
    two counts of [check_guess], and the guess loop goes on. *)
Theorem guess_that_misses_goes_on :
  forall (idx oidx : nat) (current opponent cur opp : Player) (t : Table)
         (guess : string) (rest : list Event) (hand1 hand2 : list string)
         (g2 : Game) (a b : Z),
    nth_error (players (cm t)) idx = Some cur ->
    nth_error (players (cm t)) oidx = Some opp ->
    idx <> oidx ->
    cmd_queue cur = COMMAND guess :: rest ->
    remove_all (chars guess) (number_hand cur) = Some hand1 ->
    draw_up (set_discard_number (discard_number (game t) ++ chars guess) (game t)) hand1
    = (g2, hand2) ->
    check_guess (answer opp) (chars guess) = (a, b) ->
    a <> NUM_GUESS_DIGITS g2 ->
    exists t',
      guess_once idx oidx current opponent t = Next tt t' /\
      players (cm t')
      = update_nth idx
          (fun p => set_number_hand hand2 (set_cmd_queue rest p)) (players (cm t)) /\
      game t' = g2 /\
      sent (wire (cm t'))
      = sent (wire (cm t))
        ++ [(socket current, hand_msg cur);
            (socket current, ("GUESS " ++ join "," (number_hand cur) ++ nl)%string);
            (socket current, ("RESULT " ++ fmt_d a ++ " " ++ fmt_d b ++ nl)%string);
            (socket opponent,
             ("OPP_GUESS " ++ name current ++ " " ++ guess ++ " "
              ++ fmt_d a ++ " " ++ fmt_d b ++ nl)%string)].
Proof.
  intros idx oidx current opponent cur opp t guess rest hand1 hand2 g2 a b
         Hcur Hopp Hneq Hq Hrem Hdraw Hcheck Ha.
  unfold guess_once.
  rewrite (bind_player_at _ _ _ _ _ Hcur). mred.
  unfold cmd_queue_get.
  erewrite bind_player_at by (mred; exact Hcur).
  rewrite Hq. mred. rewrite ev_type_never_DISCONNECTED. mred.
  set (t1 := on_cm _ _).
  assert (Hcur1 : nth_error (players (cm t1)) idx = Some (set_cmd_queue rest cur)).
  { subst t1. cbn [on_cm cm players set_players send_to set_wire].
    now apply nth_error_update_eq. }
  destruct (discard_guess_ok idx (chars guess) t1 _ hand1 Hcur1 Hrem)
    as (t2 & Hrun2 & Hp2 & Hg2 & Hw2 & _ & _ & _).
  rewrite (bind_Next _ _ _ _ _ Hrun2).
  assert (Hcur2 : nth_error (players (cm t2)) idx
                  = Some (set_number_hand hand1 (set_cmd_queue rest cur))).
  { rewrite Hp2. now apply nth_error_update_eq. }
  rewrite (bind_Next _ _ _ _ _ (do_draw_up_ok idx t2 _ g2 hand2 Hcur2
             ltac:(rewrite Hg2; subst t1; exact Hdraw))).
  erewrite bind_player_at
    by (mred; rewrite nth_error_update_neq by exact Hneq; rewrite Hp2;
        rewrite nth_error_update_neq by exact Hneq; subst t1; mred;
        rewrite nth_error_update_neq by exact Hneq; exact Hopp).
  rewrite Hcheck. mred.
  destruct (Z.eqb_spec a (NUM_GUESS_DIGITS g2)) as [He|_]; [contradiction|].
  eexists. split; [reflexivity|]. mred. cbn [players send_to set_wire set_players].
  split; [|split; [reflexivity|]].
  - rewrite Hp2. subst t1. mred. cbn [players send_to set_wire set_players].
    rewrite !update_nth_twice. reflexivity.
  - rewrite !sent_send_to. cbn [wire set_players]. rewrite Hw2. subst t1. mred.
    cbn [wire set_players]. rewrite !sent_send_to. now rewrite <- !app_assoc.
Qed.


Lemma bind_falls_through {A : Type} (m : M A) (k : A -> M bool) :
  (forall a t b t', k a t = Next b t' -> b = false) ->
  forall t b t', bind m k t = Next b t' -> b = false.
Proof.
  intros Hk t b t'. unfold bind. destruct (m t) as [a t1|]; [apply Hk | discriminate].
Qed.

Lemma ret_false_falls_through (t : Table) (b : bool) (t' : Table) :
  ret false t = Next b t' -> b = false.
Proof. now intros [= <- _]. Qed.

(** The flag a card's effect hands back: [DOUBLE] sends one
    [DOUBLE_ACTIVE] line and sets it; every other effect, whenever it
    runs to its end, leaves it unset. *)
Lemma tool_effect_extra_guess (idx oidx : nat) (current opponent : Player) (t : Table) :
  tool_effect idx oidx current opponent "DOUBLE" t
  = Next true (on_cm (send_to current ("DOUBLE_ACTIVE" ++ nl)) t) /\
  forall (tool : string) (b : bool) (t' : Table),
    tool <> "DOUBLE" ->
    tool_effect idx oidx current opponent tool t = Next b t' ->
    b = false.
Proof.
  split; [reflexivity|].
  intros tool b t' Hne. unfold tool_effect.
  destruct (String.eqb_spec tool "DOUBLE") as [->|_]; [contradiction|].
  repeat match goal with
         | |- context [if ?c then _ else _] => destruct c
         end;
    repeat first
      [ apply ret_false_falls_through
      | apply bind_falls_through; intros ?
      | match goal with
        | |- forall _ _ _, (let (_, _) := ?x in _) _ = _ -> _ => destruct x
        end
      | intros ? ? ? ].
Qed.

(** X20: Only [DOUBLE] grants a second guess.  In a turn whose answer to
    the [TOOL] prompt picks a card, the card is announced and then: for
    [DOUBLE], the acting player is sent [DOUBLE_ACTIVE] and the turn goes
    on with a guess loop of two passes; for any other card, the turn goes
    on with a guess loop of one pass once the card's effect has run to
    its end, and ends where the effect ends it otherwise. *)
Theorem only_double_grants_a_second_guess :
  forall (idx : nat) (current opponent : Player) (data : string)
         (rest : list Event) (t : Table),
    let oidx := ((idx + 1) mod List.length (players (cm t)))%nat in
    nth_error (players (cm t)) idx = Some current ->
    nth_error (players (cm t)) oidx = Some opponent ->
    cmd_queue current = COMMAND data :: rest ->
    isdigit data && (0 <=? int data - 1)%Z
    && (int data - 1 <? Z.of_nat (List.length (tool_hand current)))%Z = true ->
    exists (tool : string) (t2 : Table),
      nth_error (tool_hand current) (Z.to_nat (int data - 1)) = Some tool /\
      sent (wire (cm t2))
      = sent (wire (cm t)) ++ tool_prompt current (players (cm t))
        ++ [(socket current, ("USED_TOOL " ++ tool ++ nl)%string);
            (socket opponent, ("OPP_TOOL " ++ name current ++ " " ++ tool ++ nl)%string)] /\
      if String.eqb tool "DOUBLE"
      then turn idx t
           = guess_loop 2 idx oidx current opponent
               (on_cm (send_to current ("DOUBLE_ACTIVE" ++ nl)) t2)
      else match tool_effect idx oidx current opponent tool t2 with
           | Next _ t3 => turn idx t = guess_loop 1 idx oidx current opponent t3
           | Stop x t3 => turn idx t = Stop x t3
           end.
Proof.
  intros idx current opponent data rest t oidx Hcur Hopp Hq Hsel.
  destruct (turn_plays_card idx current opponent data rest t Hcur Hopp Hq Hsel)
    as (tool & t2 & Hnth & Hturn & _ & _ & _ & _ & Hsent).
  fold oidx in Hturn.
  exists tool, t2. split; [exact Hnth|]. split; [exact Hsent|].
  destruct (tool_effect_extra_guess idx oidx current opponent t2) as [Hdouble Hother].
  destruct (String.eqb_spec tool "DOUBLE") as [->|Hne].
  - rewrite Hturn. unfold bind at 1. now rewrite Hdouble.
  - destruct (tool_effect idx oidx current opponent tool t2) as [b t3|x t3] eqn:Heff.
    + rewrite (Hother tool b t3 Hne Heff) in Heff.
      rewrite Hturn. unfold bind at 1. now rewrite Heff.
    + rewrite Hturn. unfold bind at 1. now rewrite Heff.
Qed.

End GuessFacts.

Lemma map_socket_of_ident (l1 l2 : list Player) :
  map ident l1 = map ident l2 -> map socket l1 = map socket l2.
Proof.
  intros H.
  apply (f_equal (map (fun x : string * nat * string * list bool * list string =>
                         snd (fst (fst (fst x)))))) in H.
  rewrite !map_map in H. exact H.
Qed.

Section DrawFacts.

Context {GM : GameModel} {HB : Hub}.

(** The end of [play], lines 415-418, spelled out. *)
Lemma play_ends_in_draw (I : Table -> Prop) (Q : Exit -> Table -> Prop) :
  keeps I Q deal_hands ->
  (forall n, keeps I Q (round_loop n)) ->
  forall t, I t ->
    match play t with
    | Next _ t' =>
        exists t2 t3,
          I t2 /\
          send_each (players (cm t2)) ("DRAW" ++ nl) t2 = Next tt t3 /\
          t' = on_cm reset_turn_server t3
    | Stop _ _ => True
    end.
Proof.
  intros Hdeal Hround t Ht. unfold play, bind.
  specialize (Hdeal t Ht). destruct (deal_hands t) as [[] t1|x t1]; [|exact Logic.I].
  cbn [the_game].
  specialize (Hround (MAX_ROUNDS (game t1)) t1 Hdeal).
  destruct (round_loop (MAX_ROUNDS (game t1)) t1) as [[] t2|x t2]; [|exact Logic.I].
  cbn [roster].
  destruct (send_each_spec ("DRAW" ++ nl) (players (cm t2)) t2) as (t3 & Hrun & _).
  rewrite Hrun. exists t2, t3. auto.
Qed.

(** X23: The draw: when [run_game] returns at line 418, the last messages
    sent are one [DRAW] line to each session [Game] was given back, in
    roster order, and the last socket calls are one [close] on each of
    them; the roster is empty and the start latch cleared. *)
Theorem run_game_draw_reaches_everyone :
  forall w w' : Server,
    run_game w = (Returned 418, w') ->
    (exists before,
        sent (wire w')
        = before ++ map (fun p => (socket p, ("DRAW" ++ nl)%string))
                        (snd (Game_new (players w)))) /\
    (exists before,
        wire w'
        = before ++ map (fun p => Close (socket p)) (snd (Game_new (players w)))) /\
    players w' = [] /\ start_event w' = false.
Proof.
  intros w w'. unfold run_game.
  destruct (start_event w); [|destruct nothing_left_to_run; discriminate].
  destruct (Game_new (players w)) as [g ps]. cbn [snd].
  set (I := fun t : Table => map ident (players (cm t)) = map ident ps).
  set (Q := fun (x : Exit) (t : Table) => True).
  assert (Hplay := play_ends_in_draw I Q).
  specialize (Hplay ltac:(unfold deal_hands; apply keeps_bind; [apply keeps_roster|];
                          intros l; apply keeps_send_hands; intros; assumption)).
  assert (Hround : forall n, keeps I Q (round_loop n)).
  { intros n. apply (keeps_round_loop I Q (fun _ => True)); try exact Logic.I;
      try (intros; exact Logic.I); try (intros; assumption).
    intros i f t _ Hf Ht. subst I. cbn.
    rewrite map_ident_update by exact Hf. exact Ht. }
  specialize (Hplay Hround (mkTable (set_players ps w) g) eq_refl).
  destruct (play (mkTable (set_players ps w) g)) as [[] t|x t] eqn:Hp.
  - intros [= <-]. destruct Hplay as (t2 & t3 & Ht2 & Hrun & ->).
    destruct (send_each_spec ("DRAW" ++ nl) (players (cm t2)) t2)
      as (t3' & Hrun' & Hp3 & _ & _ & _ & _ & Hsent).
    rewrite Hrun in Hrun'. injection Hrun' as <-.
    apply map_socket_of_ident in Ht2. rewrite <- Hp3 in Ht2.
    cbn [cm on_cm]. repeat split.
    + exists (sent (wire (cm t2))). rewrite sent_reset_turn, Hsent.
      f_equal. rewrite <- Hp3.
      rewrite <- (map_map socket (fun fd => (fd, ("DRAW" ++ nl)%string))), Ht2.
      now rewrite map_map.
    + exists (wire (cm t3)). rewrite wire_reset_turn. f_equal.
      rewrite <- (map_map socket Close), Ht2. now rewrite map_map.
  - intros [= -> <-].
    pose proof (exits_play _ _ _ Hp) as H. cbn in H.
    destruct H as [H|[[H _]|[_ H]]]; [discriminate | discriminate | lia].
Qed.

End DrawFacts.

(* ================================================================== *)
(** * The deal, and what is left after a game *)
(* ================================================================== *)

(** What has been sent stays sent: that the messages sent so far begin
    with [pre] is kept by every step of the engine. *)
Ltac sent_prefix_kept :=
  intros;
  repeat match goal with X := _ |- _ => subst X end;
  cbv beta in *;
  let Hl := fresh "Hl" in
  match goal with H : exists l, sent _ = _ ++ l |- _ => destruct H as [? Hl] end;
  cbn [cm on_cm on_game wire set_players set_end_event];
  eexists; rewrite ?sent_reset_turn, ?sent_send_to, Hl;
  first [reflexivity | symmetry; apply app_assoc].

(** C4, as the specification states it, fails on the table of Alice and
    Bob: the deal loop runs over [self.players[1:]] and sends Alice, the
    first of the roster, nothing. *)
Lemma deal_hands_counterexample :
  ~ (let t := Sample.table Sample.alice Sample.bob in
     match deal_hands t with
     | Next _ t' =>
         forall p, In p (players (cm t)) ->
                   In (socket p, hand_msg p) (sent (wire (cm t')))
     | Stop _ _ => False
     end).
Proof.
  cbn zeta. intros H. specialize (H Sample.alice (or_introl eq_refl)).
  vm_compute in H. destruct H as [H|[]]. discriminate.
Qed.

Section DealFacts.

Context {GM : GameModel} {HB : Hub}.

(** C4 (amended): once the start latch is set and [Game] has dealt a
    roster of two, the deal loop sends [HAND] to the second player only;
    the first player's hand, still the one dealt, is the very next
    message, sent at the start of that player's turn in the first round.
    So in a game of at least one round the first two messages are the two
    initial hands, and whatever follows leaves them on the log. *)
Theorem run_game_deals_both_hands :
  forall (w : Server) (g : Game) (a b : Player),
    start_event w = true ->
    Game_new (players w) = (g, [a; b]) ->
    (1 <= MAX_ROUNDS g)%nat ->
    deal_hands (mkTable (set_players [a; b] w) g)
    = Next tt (mkTable (send_to b (hand_msg b) (set_players [a; b] w)) g) /\
    exists rest,
      sent (wire (snd (run_game w)))
      = sent (wire w) ++ (socket b, hand_msg b) :: (socket a, hand_msg a) :: rest.
Proof.
  intros w g a b Hstart Hnew Hrounds. split; [reflexivity|].
  unfold run_game. rewrite Hstart, Hnew.
  set (pre := sent (wire w) ++ [(socket b, hand_msg b); (socket a, hand_msg a)]).
  set (I := fun t : Table => exists l, sent (wire (cm t)) = pre ++ l).
  set (Q := fun (_ : Exit) (t : Table) => I t).
  assert (Hgoal : I (mkTable (match play (mkTable (set_players [a; b] w) g) with
                              | Next _ t => cm t
                              | Stop _ t => cm t
                              end) g)).
  2:{ destruct Hgoal as [l Hl]. cbn [cm] in Hl. exists l.
      destruct (play (mkTable (set_players [a; b] w) g)) as [[] t|x t]; cbn [snd];
        rewrite Hl; subst pre; now rewrite <- app_assoc. }
  set (t1 := mkTable (send_to b (hand_msg b) (set_players [a; b] w)) g).
  assert (Hplay : exists n,
             play (mkTable (set_players [a; b] w) g)
             = (((turn 0 ;; for_turns [1%nat]) ;; round_loop n) ;;
                ps <- roster ;; send_each ps ("DRAW" ++ nl) ;; reset_turn) t1).
  { destruct g as [[|n] digits deck dn dt]; cbn in Hrounds; [lia|].
    exists n. reflexivity. }
  destruct Hplay as [n ->].
  assert (Hstart1 : I (on_cm (send_to a (hand_msg a)) t1)).
  { exists []. subst t1 pre. cbn [cm on_cm]. rewrite !sent_send_to.
    cbn [wire set_players]. now rewrite app_nil_r, <- app_assoc. }
  assert (Hturn : match turn 0 t1 with
                  | Next _ t' => I t'
                  | Stop x t' => Q x t'
                  end).
  { apply (keeps_turn_after_hand I Q (fun _ => True)) with (current := a) (opponent := b);
      try solve [sent_prefix_kept]; try exact Logic.I; try reflexivity.
    exact Hstart1. }
  assert (Hfor : keeps I Q (for_turns [1%nat])).
  { apply (keeps_for_turns I Q (fun _ => True)); try solve [sent_prefix_kept].
    repeat constructor. }
  assert (Hround : keeps I Q (round_loop n)).
  { apply (keeps_round_loop I Q (fun _ => True));
      try solve [sent_prefix_kept]; exact Logic.I. }
  assert (Hdraw : forall ps, keeps I Q (send_each ps ("DRAW" ++ nl))).
  { intros ps. apply (keeps_send_each I Q). sent_prefix_kept. }
  rewrite !bind_bind.
  destruct (turn 0 t1) as [[] t2|x t2] eqn:Ht0.
  2:{ rewrite (bind_Stop _ _ _ _ _ Ht0). exact Hturn. }
  rewrite (bind_Next _ _ _ _ _ Ht0).
  specialize (Hfor t2 Hturn).
  destruct (for_turns [1%nat] t2) as [[] t3|x t3] eqn:Hf.
  2:{ rewrite (bind_Stop _ _ _ _ _ Hf). exact Hfor. }
  rewrite (bind_Next _ _ _ _ _ Hf).
  specialize (Hround t3 Hfor).
  destruct (round_loop n t3) as [[] t4|x t4] eqn:Hr.
  2:{ rewrite (bind_Stop _ _ _ _ _ Hr). exact Hround. }
  rewrite (bind_Next _ _ _ _ _ Hr). mred.
  specialize (Hdraw (players (cm t4)) t4 Hround).
  destruct (send_each (players (cm t4)) ("DRAW" ++ nl) t4) as [[] t5|x t5] eqn:Hd.
  2:{ rewrite (bind_Stop _ _ _ _ _ Hd). exact Hdraw. }
  rewrite (bind_Next _ _ _ _ _ Hd). unfold reset_turn. mred.
  destruct Hdraw as [l Hl]. exists l. cbn [cm]. now rewrite sent_reset_turn.
Qed.

End DealFacts.

Section AfterTheGame.

Context {GM : GameModel} {HB : Hub}.

(** C10: when [run_game] returns by the winning path (line 411) or by
    the draw path (line 418), its last socket calls are one [close] on
    the socket of each session of the game, in roster order; the roster
    is empty and the start latch is cleared.  The next call of
    [run_game] -- the accept loop being there to be waited for -- waits
    at line 230, still waits after one more connection is accepted, and
    finds the latch set once two connections have been accepted. *)
Theorem run_game_leaves_empty_roster :
  forall (w w' : Server) (line : nat),
    run_game w = (Returned line, w') ->
    (line = 411 \/ line = 418)%nat ->
    (exists before,
        wire w' = before ++ map (fun p => Close (socket p)) (snd (Game_new (players w)))) /\
    players w' = [] /\
    start_event w' = false /\
    run_game (HB := busy) w' = (Blocked 230, w') /\
    forall (sock1 sock2 : nat) (addr1 addr2 : string),
    exists w1 w2,
      accept_one sock1 addr1 w' = Continue w1 /\
      run_game (HB := busy) w1 = (Blocked 230, w1) /\
      accept_one sock2 addr2 w1 = Continue w2 /\
      start_event w2 = true /\
      map socket (players w2) = [sock1; sock2].
Proof.
  intros w w' line. unfold run_game at 1.
  destruct (start_event w); [|destruct nothing_left_to_run; discriminate].
  destruct (Game_new (players w)) as [g ps]. cbn [snd].
  set (I := fun t : Table => map ident (players (cm t)) = map ident ps).
  set (Q := fun (x : Exit) (t : Table) =>
              x = Returned 411 -> exists t1, I t1 /\ t = on_cm reset_turn_server t1).
  assert (Hplay :
    match play (mkTable (set_players ps w) g) with
    | Next _ t' => exists t1, I t1 /\ t' = on_cm reset_turn_server t1
    | Stop x t' => Q x t'
    end).
  { apply play_to_the_end.
    - unfold deal_hands. apply keeps_bind; [apply keeps_roster|].
      intros l. apply keeps_send_hands. intros; assumption.
    - intros n. apply (keeps_round_loop I Q (fun _ => True)); try exact Logic.I.
      + intros; assumption.
      + intros i f t _ Hf Ht. subst I. cbn.
        rewrite map_ident_update by exact Hf. exact Ht.
      + intros; assumption.
      + intros l t _ [=].
      + intros e l t _ [=].
      + intros t _ [=].
      + intros t Ht _. now exists t.
      + intros current l t Hl _ [= ->]. cbn in Hl. lia.
    - intros l msg. apply keeps_send_each. intros; assumption.
    - reflexivity. }
  assert (Hend : forall t, w' = cm t ->
                   (exists t1, I t1 /\ t = on_cm reset_turn_server t1) ->
                   (exists before, wire w' = before ++ map (fun p => Close (socket p)) ps) /\
                   players w' = [] /\ start_event w' = false).
  { intros t -> (t1 & Ht1 & ->). cbn [cm on_cm]. repeat split.
    exists (wire (cm t1)). rewrite wire_reset_turn. f_equal.
    apply map_socket_of_ident in Ht1.
    rewrite <- (map_map socket Close), Ht1. now rewrite map_map. }
  intros Hrun Hline.
  assert (Hw' : (exists before, wire w' = before ++ map (fun p => Close (socket p)) ps) /\
                players w' = [] /\ start_event w' = false).
  { destruct (play (mkTable (set_players ps w) g)) as [[] t|x t] eqn:Hpl.
    - injection Hrun as _ <-. now apply (Hend t).
    - injection Hrun as -> <-. apply (Hend t); [reflexivity|].
      destruct Hline as [->| ->]; [now apply Hplay|].
      exfalso. pose proof (exits_play _ _ _ Hpl) as Hexit. cbn in Hexit.
      destruct Hexit as [Hexit|[[Hexit _]|[_ Hexit]]];
        [discriminate | discriminate | lia]. }
  destruct Hw' as (Hwire & Hp & Hs).
  split; [exact Hwire|]. split; [exact Hp|]. split; [exact Hs|].
  assert (Hnext : forall v, start_event v = false -> run_game (HB := busy) v = (Blocked 230, v)).
  { intros v Hv. unfold run_game. now rewrite Hv. }
  split; [now apply Hnext|].
  intros sock1 sock2 addr1 addr2.
  unfold accept_one. rewrite Hp. cbn [List.length Nat.leb players set_players spawned
    set_spawned app Nat.eqb].
  eexists. eexists. split; [reflexivity|]. split.
  { apply Hnext. cbn [start_event set_spawned set_players]. exact Hs. }
  cbn [players set_spawned set_players List.length Nat.leb app Nat.eqb spawned].
  split; [reflexivity|]. split; reflexivity.
Qed.

End AfterTheGame.

(* ================================================================== *)
(** * The further properties on concrete sessions *)
(* ================================================================== *)

Lemma serve_forever_dies_on_failed_reject_witness :
  serve_forever [Sample.third; Accepted 4 "10.0.0.4"] Scenes.deaf_lobby
  = (ServeCrashed, log (Sendall 3 "FULL") Scenes.deaf_lobby).
Proof.
  apply (serve_forever_dies_on_failed_reject [] [Accepted 4 "10.0.0.4"] 3 "10.0.0.3"
           Scenes.deaf_lobby).
  - reflexivity.
  - simpl. lia.
  - reflexivity.
Defined.

Lemma serve_forever_seats_first_two_witness :
  map name (players (snd (serve_forever (arrivals Scenes.three_knocks)
                                        (ConnectionManager_init []))))
  = [("玩家1")%string; ("玩家2")%string] /\
  sent (wire (snd (serve_forever (arrivals Scenes.three_knocks)
                                 (ConnectionManager_init []))))
  = [(3%nat, "FULL")].
Proof.
  rewrite (serve_forever_seats_first_two [] Scenes.three_knocks).
  - vm_compute. split; reflexivity.
  - intros c _ Hin. exact Hin.
Defined.

Lemma heartbeat_of_live_session_witness :
  fst (fst (_heartbeat true Scenes.two_good_ticks Sample.alice
                       (Sample.lobby Sample.alice Sample.bob))) = HbAlive.
Proof.
  apply (heartbeat_of_live_session true Scenes.two_good_ticks Sample.alice
           (Sample.lobby Sample.alice Sample.bob)).
  - reflexivity.
  - repeat constructor.
Defined.

Lemma handle_disconnect_of_two_witness :
  players (handle_disconnect Sample.alice (Sample.lobby Sample.alice Sample.bob))
  = [Sample.bob].
Proof.
  apply (handle_disconnect_of_two Sample.alice Sample.bob
           (Sample.lobby Sample.alice Sample.bob)).
  - reflexivity.
  - simpl. lia.
Defined.

Lemma handle_disconnect_of_one_witness :
  end_event (handle_disconnect Sample.alice Scenes.bob_alone) = true.
Proof.
  apply (handle_disconnect_of_one Sample.bob Sample.alice Scenes.bob_alone).
  reflexivity.
Defined.

Lemma run_game_deals_both_hands_witness :
  exists rest,
    sent (wire (snd (run_game (GM := Sample.rules) (HB := busy)
                              (Sample.lobby Sample.lucky_alice Sample.bob))))
    = (2%nat, hand_msg Sample.bob) :: (1%nat, hand_msg Sample.alice) :: rest.
Proof.
  destruct (run_game_deals_both_hands (GM := Sample.rules) (HB := busy)
              (Sample.lobby Sample.lucky_alice Sample.bob)
              (mkGame 3 4 ["0"; "1"; "2"; "3"; "4"; "5"; "6"; "7"; "8"; "9"] [] [])
              Sample.lucky_alice Sample.bob)
    as (_ & rest & Hsent).
  - reflexivity.
  - reflexivity.
  - simpl. lia.
  - exists rest. exact Hsent.
Defined.

Lemma run_game_leaves_empty_roster_witness :
  exists w',
    run_game (GM := Sample.rules) (HB := busy) (Sample.lobby Sample.lucky_alice Sample.bob)
    = (Returned 411, w') /\
    closed (wire w') = [1%nat; 2%nat] /\
    players w' = [] /\ start_event w' = false /\
    run_game (GM := Sample.rules) (HB := busy) w' = (Blocked 230, w').
Proof.
  exists (snd (run_game (GM := Sample.rules) (HB := busy)
                        (Sample.lobby Sample.lucky_alice Sample.bob))).
  split; [vm_compute; reflexivity|].
  split; [vm_compute; reflexivity|].
  destruct (run_game_leaves_empty_roster (GM := Sample.rules) (HB := busy)
              (Sample.lobby Sample.lucky_alice Sample.bob)
              (snd (run_game (GM := Sample.rules) (HB := busy)
                      (Sample.lobby Sample.lucky_alice Sample.bob))) 411)
    as (_ & Hroster & Hstart & Hnext & _).
  - vm_compute. reflexivity.
  - left. reflexivity.
  - split; [exact Hroster|]. split; [exact Hstart | exact Hnext].
Defined.

Lemma cmd_reader_chunking_witness :
  _cmd_reader [(false, RecvData "12"); (false, RecvData ("34" ++ nl))]
              EmptyString Sample.alice
  = _cmd_reader [(false, RecvData ("12" ++ "34" ++ nl))] EmptyString Sample.alice.
Proof.
  apply (cmd_reader_chunking "12" ("34" ++ nl) EmptyString [] Sample.alice).
  - reflexivity.
  - reflexivity.
Defined.

Lemma run_game_keeps_sessions_witness :
  map name (players (snd (run_game (GM := Sample.rules) (HB := busy)
                            (Sample.lobby Sample.dropped_alice Sample.bob))))
  = ["A"; "B"].
Proof.
  destruct (run_game_keeps_sessions (GM := Sample.rules) (HB := busy)
              (Sample.lobby Sample.dropped_alice Sample.bob))
    as (Hid & _).
  - reflexivity.
  - vm_compute. intros H. repeat destruct H as [H|H]; try discriminate; contradiction.
  - apply (f_equal (map (fun x : string * nat * string * list bool * list string =>
                           fst (fst (fst (fst x)))))) in Hid.
    rewrite !map_map in Hid. exact Hid.
Defined.

Lemma turn_leaves_the_others_alone_witness :
  match turn (GM := Sample.rules) (HB := busy) 0
             (Sample.table Sample.dropped_alice Sample.bob) with
  | Next _ t' => True
  | Stop x t' => x = Blocked 381 /\ nth_error (players (cm t')) 1 = Some Sample.bob
  end.
Proof.
  pose proof (turn_leaves_the_others_alone (GM := Sample.rules) (HB := busy) 0 1
                (Sample.table Sample.dropped_alice Sample.bob)) as H.
  assert (Hne : 1%nat <> 0%nat) by lia.
  specialize (H Hne). vm_compute in H |- *.
  destruct H as [[line Hl]|H]; [discriminate | split; [reflexivity | exact H]].
Defined.

Lemma guess_that_misses_goes_on_witness :
  exists t',
    guess_once (GM := Sample.rules) (HB := busy) 0 1 Sample.alice Sample.bob
               (Sample.table Scenes.near_alice Sample.bob)
    = Next tt t' /\
    map number_hand (players (cm t'))
    = [["4"; "0"; "1"; "2"; "3"]; ["6"; "7"; "8"; "9"; "0"]].
Proof.
  destruct (guess_that_misses_goes_on (GM := Sample.rules) (HB := busy)
               0 1 Sample.alice Sample.bob
               Scenes.near_alice Sample.bob
               (Sample.table Scenes.near_alice Sample.bob) "1235" []
               ["4"] ["4"; "0"; "1"; "2"; "3"]
               (mkGame 3 4 ["4"; "5"; "6"; "7"; "8"; "9"] ["1"; "2"; "3"; "5"] [])
               3%Z 0%Z)
    as (t' & Hrun & Hplayers & _).
  - vm_compute. reflexivity.
  - vm_compute. reflexivity.
  - discriminate.
  - vm_compute. reflexivity.
  - vm_compute. reflexivity.
  - vm_compute. reflexivity.
  - vm_compute. reflexivity.
  - vm_compute. discriminate.
  - exists t'. split; [exact Hrun|]. rewrite Hplayers. vm_compute. reflexivity.
Defined.


Lemma run_game_draw_reaches_everyone_witness :
  exists w',
    run_game (GM := Scenes.no_rounds) (HB := busy) (Sample.lobby Sample.alice Sample.bob)
    = (Returned 418, w') /\
    players w' = [].
Proof.
  exists (snd (run_game (GM := Scenes.no_rounds) (HB := busy)
                        (Sample.lobby Sample.alice Sample.bob))).
  split; [vm_compute; reflexivity|].
  apply (run_game_draw_reaches_everyone (GM := Scenes.no_rounds) (HB := busy)
           (Sample.lobby Sample.alice Sample.bob)).
  vm_compute. reflexivity.
Defined.

Lemma round_gives_both_a_turn_witness :
  round_loop (GM := Sample.rules) (HB := busy) 1
             (Sample.table Sample.lucky_alice Sample.bob)
  = (turn (GM := Sample.rules) (HB := busy) 0 ;;
     turn (GM := Sample.rules) (HB := busy) 1 ;;
     round_loop (GM := Sample.rules) (HB := busy) 0)
      (Sample.table Sample.lucky_alice Sample.bob).
Proof.
  apply (round_gives_both_a_turn (GM := Sample.rules) (HB := busy) 0
           (Sample.table Sample.lucky_alice Sample.bob)).
  simpl. lia.
Defined.

Lemma only_double_grants_a_second_guess_witness :
  exists t',
    turn (GM := Sample.rules) (HB := busy) 0
         (Sample.table Scenes.doubling_alice Sample.bob)
    = guess_loop (GM := Sample.rules) (HB := busy) 2 0 1
                 Scenes.doubling_alice Sample.bob t'.
Proof.
  destruct (only_double_grants_a_second_guess (GM := Sample.rules) (HB := busy) 0
              Scenes.doubling_alice Sample.bob "2" []
              (Sample.table Scenes.doubling_alice Sample.bob)
              eq_refl eq_refl eq_refl eq_refl)
    as (tool & t2 & Hnth & _ & Hturn).
  injection Hnth as <-.
  change (String.eqb "DOUBLE" "DOUBLE") with true in Hturn.
  eexists. exact Hturn.
Defined.

Lemma run_game_end_latch_witness :
  end_event (snd (run_game (GM := Sample.rules) (HB := idle)
                           (Sample.lobby Sample.silent_alice Sample.bob)))
  = true.
Proof.
  apply (proj1 (run_game_end_latch (GM := Sample.rules) (HB := idle)
                  (Sample.lobby Sample.silent_alice Sample.bob))).
  vm_compute. right. right. right. left. reflexivity.
Defined.

Lemma heartbeat_at_most_one_disconnect_witness :
  exists l,
    wire (snd (_heartbeat true [mkTick true true] Sample.alice
                          (Sample.lobby Sample.alice Sample.bob)))
    = l ++ [Close (socket Sample.alice)].
Proof.
  pose proof (heartbeat_at_most_one_disconnect true [mkTick true true] Sample.alice
                (Sample.lobby Sample.alice Sample.bob)) as H.
  cbn zeta in H. destruct H as (_ & H & _). apply H. reflexivity.
Defined.
